(** * SysWhispers2 generator ([syswhispers.py]): a shallow embedding

    The development follows the source file top to bottom:
    - Python values: [str] as a sequence of code points, [int] as [Z],
      the insertion-ordered [dict] of prototypes as an association list;
    - exceptions and the unbounded [while True] loop of [_get_typedefs]
      through the [outcome] type;
    - [SysWhispers._get_function_hash], [_get_typedefs],
      [_get_function_prototype], [_get_function_asm_code] as pure functions
      of the object's fields;
    - [SysWhispers.generate] as a state-passing computation over the
      mutable prototype catalog and a log of file operations.

    Modelling boundary.  Reading [./data/base.c] and [./data/base.h] is
    taken to succeed and to yield the decoded template text; what is handed
    to [write] is logged as the text whose encoding is written.  The
    [.encode()] of the typedef and prototype writes, whose text comes from
    the JSON catalogs, raises on a lone surrogate ([encode] below); the
    texts of the other writes (templates, basename, stubs) are taken to be
    encodable; the closing [print] calls of [generate] are left out.  The module-level
    [args.architecture] and the object's fields are gathered in the record
    [Env]. *)

From Stdlib Require Import String Ascii.
From Stdlib Require Import List ZArith NArith Lia Bool.
Import ListNotations.

(** ** Python strings *)

(** A [str] is a sequence of Unicode code points. *)
Definition pystr := list N.

Definition py (s : string) : pystr :=
  map N_of_ascii (list_ascii_of_string s).

Arguments py s%_string.

Open Scope list_scope.

Definition pystr_eq_dec : forall a b : pystr, {a = b} + {a <> b} :=
  list_eq_dec N.eq_dec.

Definition pystr_eqb (a b : pystr) : bool :=
  if pystr_eq_dec a b then true else false.

Definition TAB : pystr := [9%N].
Definition NL : pystr := [10%N].
Definition NUL : pystr := [0%N].

(** [s.startswith(p)] *)
Fixpoint startswith (p s : pystr) : bool :=
  match p, s with
  | [], _ => true
  | _ :: _, [] => false
  | a :: p', b :: s' => N.eqb a b && startswith p' s'
  end.

(** [old in s] for strings: some suffix of [s] starts with [old]. *)
Fixpoint contains (old s : pystr) : bool :=
  startswith old s ||
  match s with
  | [] => false
  | _ :: s' => contains old s'
  end.

(** [s.replace(old, new, 1)]: the leftmost occurrence of [old] is replaced,
    nothing else.  (For [old = ''] the occurrence is at position 0; on an
    empty [s] this is the behaviour of CPython 3.9 and later.) *)
Fixpoint replace1 (old new s : pystr) : pystr :=
  if startswith old s then new ++ skipn (length old) s
  else match s with
       | [] => []
       | c :: s' => c :: replace1 old new s'
       end.

(** ** Exceptions and outcomes *)

Inductive exn : Type :=
| ValueError_prototypes_unavailable
    (* 'Prototypes are not available for one or more of the requested functions.' *)
| ValueError_invalid_architecture
    (* 'ERROR: Invalid defined architecture. Must be x64 or x86_64.' *)
| ValueError_invalid_function_name
    (* 'Invalid function name provided.' *)
| KeyError (key : pystr)
| IndexError
| StopIteration
| UnicodeEncodeError
| StructError.

(** What a call does: it returns, it raises, or (for the fuelled model of
    [while True]) it is still looping when the fuel is spent. *)
Inductive outcome (A : Type) : Type :=
| Ok (a : A)
| Raise (e : exn)
| OutOfFuel.

Arguments Ok {A} a.
Arguments Raise {A} e.
Arguments OutOfFuel {A}.

Definition obind {A B} (m : outcome A) (k : A -> outcome B) : outcome B :=
  match m with
  | Ok a => k a
  | Raise e => Raise e
  | OutOfFuel => OutOfFuel
  end.

Declare Scope outcome_scope.
Delimit Scope outcome_scope with outcome.
Notation "'let*' x ':=' m 'in' k" := (obind m (fun x => k))
  (at level 10, x name, m at level 100, k at level 200) : outcome_scope.
Open Scope outcome_scope.

(** A list comprehension whose element expression may raise. *)
Fixpoint omap {A B} (f : A -> outcome B) (l : list A) : outcome (list B) :=
  match l with
  | [] => Ok []
  | x :: l' =>
      let* y := f x in
      let* ys := omap f l' in
      Ok (y :: ys)
  end.

(** ** The name hasher: [SysWhispers._get_function_hash] *)

Module Hasher.

Open Scope Z_scope.

Definition mask32 : Z := 2 ^ 32 - 1.

(** [ror8 = lambda v: ((v >> 8) & (2 ** 32 - 1)) | ((v << 24) & (2 ** 32 - 1))] *)
Definition ror8 (v : Z) : Z :=
  Z.lor (Z.land (Z.shiftr v 8) mask32) (Z.land (Z.shiftl v 24) mask32).

Definition is_surrogate (c : N) : bool :=
  (N.leb 55296 c && N.leb c 57343)%N.

(** [struct.unpack('<H', segment.encode())[0]] for a two-character
    [segment]: UTF-8 gives one byte per character exactly when the character
    is below 128, so the buffer has the two bytes [unpack] requires only for
    two ASCII characters; a lone surrogate makes [encode] raise, any other
    character makes the buffer too long for [unpack]. *)
Definition unpack_H (segment : pystr) : outcome Z :=
  if existsb is_surrogate segment then Raise UnicodeEncodeError
  else match segment with
       | [c0; c1] =>
           if (N.ltb c0 128 && N.ltb c1 128)%N
           then Ok (Z.of_N c0 + 256 * Z.of_N c1)
           else Raise StructError
       | _ => Raise StructError
       end.

(** [[s for s in [name[i:i + 2] for i in range(len(name))] if len(s) == 2]] *)
Definition segments (name : pystr) : list pystr :=
  filter (fun s => Nat.eqb (length s) 2)
         (map (fun i => firstn 2 (skipn i name)) (seq 0 (length name))).

(** The body of the [for] loop: [hash ^= partial_name_short + ror8(hash)]. *)
Fixpoint hash_loop (segs : list pystr) (hash : Z) : outcome Z :=
  match segs with
  | [] => Ok hash
  | segment :: rest =>
      let* partial_name_short := unpack_H segment in
      hash_loop rest (Z.lxor hash (partial_name_short + ror8 hash))
  end.

Definition Zw : pystr := py "Zw".

Definition _get_function_hash (seed : Z) (function_prefix : pystr)
    (function_name : pystr) : outcome Z :=
  let hash := seed in
  let name := replace1 function_prefix Zw function_name ++ NUL in
  hash_loop (segments name) hash.

Definition ascii_only (s : pystr) : Prop := Forall (fun c => (c < 128)%N) s.

(** The name hasher in the words of the specification: the name's bytes
    taken two at a time as consecutive, non-overlapping little-endian 16-bit
    units, a trailing odd byte being dropped. *)
Fixpoint units_as_specified (bytes : list Z) : list Z :=
  match bytes with
  | b0 :: b1 :: rest => (b0 + 256 * b1) :: units_as_specified rest
  | _ => []
  end.

(** Rotation of a 32-bit value right by 8 bits. *)
Definition rotateRight8 (v : Z) : Z :=
  (v mod 2 ^ 32) / 2 ^ 8 + (v mod 2 ^ 8) * 2 ^ 24.

Definition mix (rot : Z -> Z) (accumulator u : Z) : Z :=
  Z.lxor accumulator (u + rot accumulator).

Definition hash_as_specified (seed : Z) (function_prefix function_name : pystr)
  : Z :=
  fold_left (mix rotateRight8)
    (units_as_specified
       (map Z.of_N (replace1 function_prefix Zw function_name ++ NUL)))
    seed.

(** What the source walks instead: one 16-bit unit per character position,
    made of that character and its successor, so that consecutive units
    share a character. *)
Fixpoint overlapping_units (chars : pystr) : list Z :=
  match chars with
  | c0 :: ((c1 :: _) as rest) =>
      (Z.of_N c0 + 256 * Z.of_N c1) :: overlapping_units rest
  | _ => []
  end.

(** No sum [partial_name_short + rotateRight8 accumulator] of the walk over
    [units] carries out of 32 bits. *)
Fixpoint carry_free (units : list Z) (accumulator : Z) : bool :=
  match units with
  | [] => true
  | u :: rest =>
      (u + rotateRight8 accumulator <? 2 ^ 32)
      && carry_free rest (mix rotateRight8 accumulator u)
  end.

End Hasher.

(** ** [str.encode()] *)

(** UTF-8 encodes every code point but the surrogates. *)
Definition encodable (text : pystr) : Prop :=
  existsb Hasher.is_surrogate text = false.

(** [text.encode()], the bytes standing as the text they encode. *)
Definition encode (text : pystr) : outcome pystr :=
  if existsb Hasher.is_surrogate text then Raise UnicodeEncodeError
  else Ok text.

(** ** The catalogs *)

(** An entry of [data/typedefs.json]. *)
Record TypeDefinition : Type := {
  identifiers : list pystr;
  dependencies : list pystr;
  definition : pystr
}.

(** An element of a prototype's ['params'] list. *)
Record Param : Type := {
  param_name : pystr;
  param_type : pystr;
  param_in : bool;
  param_out : bool;
  param_optional : bool
}.

(** A value of [data/prototypes.json]; only ['params'] is ever read. *)
Record Prototype : Type := {
  params : list Param
}.

(** [self.prototypes]: a Python [dict], which iterates in insertion order.
    Keys are pairwise distinct in every dictionary built by the operations
    below from one that has this property. *)
Definition dict := list (pystr * Prototype).

Definition dict_keys (d : dict) : list pystr := map fst d.

(** [k in d] *)
Definition dict_mem (k : pystr) (d : dict) : bool :=
  existsb (fun kv => pystr_eqb k (fst kv)) d.

(** [d[k]], [None] standing for [KeyError]. *)
Fixpoint dict_get (k : pystr) (d : dict) : option Prototype :=
  match d with
  | [] => None
  | (k', v) :: d' => if pystr_eqb k k' then Some v else dict_get k d'
  end.

(** [d[k] = v]: an existing key keeps its place, a new one goes last. *)
Fixpoint dict_set (k : pystr) (v : Prototype) (d : dict) : dict :=
  match d with
  | [] => [(k, v)]
  | (k', v') :: d' =>
      if pystr_eqb k k' then (k', v) :: d' else (k', v') :: dict_set k v d'
  end.

(** [del d[k]] for a key that is present. *)
Definition dict_del (k : pystr) (d : dict) : dict :=
  filter (fun kv => negb (pystr_eqb k (fst kv))) d.

(** ** Python sets *)

(** Iterating a [set] visits each element once, in an order the language
    does not fix (for strings it changes from one process to the next).
    [set_iter l] is the iteration order of the set built from the elements
    of [l]; the laws are all that is known about it. *)
Class SetIter (A : Type) : Type := {
  set_iter : list A -> list A;
  set_iter_NoDup : forall l, NoDup (set_iter l);
  set_iter_In : forall l x, In x (set_iter l) <-> In x l
}.

(** ** The dependency resolver: [SysWhispers._get_typedefs] *)

Module Resolver.

Definition mem_str (n : pystr) (l : list pystr) : bool :=
  existsb (pystr_eqb n) l.

Definition mem_id (i : nat) (l : list nat) : bool :=
  existsb (Nat.eqb i) l.

Section WithCatalogs.

Context {set_of_str : SetIter pystr} {set_of_id : SetIter nat}.

Variable typedefs : list TypeDefinition.
Variable prototypes : dict.

(** [next(i for i, t in enumerate(self.typedefs) if n in t['identifiers'])],
    counting from [i]. *)
Fixpoint first_index (n : pystr) (tds : list TypeDefinition) (i : nat)
  : outcome nat :=
  match tds with
  | [] => Raise StopIteration
  | t :: rest =>
      if mem_str n (identifiers t) then Ok i else first_index n rest (S i)
  end.

Definition _names_to_ids (names : list pystr) : outcome (list nat) :=
  omap (fun n => first_index n typedefs 0) names.

(** [list(filter(lambda t: param['type'] in t['identifiers'], self.typedefs))]
    as a truth value. *)
Definition has_typedef (ty : pystr) : bool :=
  existsb (fun t => mem_str ty (identifiers t)) typedefs.

(** The inner loop over [self.prototypes[function_name]['params']]. *)
Fixpoint scan_params (ps : list Param) (used_typedefs : list pystr)
  : list pystr :=
  match ps with
  | [] => used_typedefs
  | param :: ps' =>
      scan_params ps'
        (if has_typedef (param_type param)
         then if mem_str (param_type param) used_typedefs
              then used_typedefs
              else used_typedefs ++ [param_type param]
         else used_typedefs)
  end.

(** The outer loop over [function_names]. *)
Fixpoint scan_functions (function_names : list pystr)
    (used_typedefs : list pystr) : outcome (list pystr) :=
  match function_names with
  | [] => Ok used_typedefs
  | function_name :: rest =>
      match dict_get function_name prototypes with
      | None => Raise (KeyError function_name)
      | Some proto => scan_functions rest (scan_params (params proto) used_typedefs)
      end
  end.

(** [for typedef_id in typedef_layers[i]:
       more_dependencies += self.typedefs[typedef_id]['dependencies']] *)
Fixpoint layer_dependencies (layer : list nat) : outcome (list pystr) :=
  match layer with
  | [] => Ok []
  | typedef_id :: rest =>
      match nth_error typedefs typedef_id with
      | None => Raise IndexError
      | Some t =>
          let* more := layer_dependencies rest in
          Ok (dependencies t ++ more)
      end
  end.

(** The [while True] loop up to its [else] branch.  [typedef_layers] is the
    dictionary [{0: ..., ..., i: ...}] as the list of its values, so that
    [current] is [typedef_layers[i]] and [done] the layers before it. *)
Fixpoint resolve_layers (fuel : nat) (done : list (list nat))
    (current : list nat) : outcome (list (list nat)) :=
  match fuel with
  | O => OutOfFuel
  | S fuel' =>
      let* deps := layer_dependencies current in
      match set_iter deps with
      | [] => Ok (done ++ [current])
      | (_ :: _) as more_dependencies =>
          let* next := _names_to_ids more_dependencies in
          resolve_layers fuel' (done ++ [current]) next
      end
  end.

(** [for k in range(len(typedef_layers) - 1):
       typedef_layers[k] = set(typedef_layers[k]) - set(typedef_layers[k + 1])]
    Layer [k + 1] is read before its own turn comes, hence as the loop
    above left it; the last layer is not touched and stays a list. *)
Fixpoint subtract_next_layer (typedef_layers : list (list nat))
  : list (list nat) :=
  match typedef_layers with
  | l :: ((l' :: _) as rest) =>
      set_iter (filter (fun x => negb (mem_id x l')) l)
        :: subtract_next_layer rest
  | _ => typedef_layers
  end.

(** [for i in range(max(typedef_layers.keys()), -1, -1):
       for j in typedef_layers[i]: ...] gives the ids in this order. *)
Definition emission_order (typedef_layers : list (list nat)) : list nat :=
  concat (rev typedef_layers).

(** [self.typedefs[j]['definition']] *)
Definition definition_of (j : nat) : outcome pystr :=
  match nth_error typedefs j with
  | None => Raise IndexError
  | Some t => Ok (definition t)
  end.

(** The ids whose definitions [_get_typedefs] returns, in order. *)
Definition resolve_ids (fuel : nat) (function_names : list pystr)
  : outcome (list nat) :=
  let* used_typedefs := scan_functions function_names [] in
  let* layer0 := _names_to_ids used_typedefs in
  let* typedef_layers := resolve_layers fuel [] layer0 in
  Ok (emission_order (subtract_next_layer typedef_layers)).

Definition _get_typedefs (fuel : nat) (function_names : list pystr)
  : outcome (list pystr) :=
  let* ids := resolve_ids fuel function_names in
  omap definition_of ids.

(** *** The vocabulary of the resolver's contract *)

(** Definition [x] lists a name whose definition is [y]. *)
Definition depends_on (x y : nat) : Prop :=
  exists t d,
    nth_error typedefs x = Some t /\ In d (dependencies t)
    /\ first_index d typedefs 0 = Ok y.

(** Definition [x] is the one found for the type of some parameter of some
    requested function. *)
Definition requested (function_names : list pystr) (x : nat) : Prop :=
  exists f proto param,
    In f function_names /\ dict_get f prototypes = Some proto
    /\ In param (params proto)
    /\ first_index (param_type param) typedefs 0 = Ok x.

(** Needed directly or transitively. *)
Inductive needed (function_names : list pystr) : nat -> Prop :=
| needed_direct x : requested function_names x -> needed function_names x
| needed_dep x y :
    needed function_names x -> depends_on x y -> needed function_names y.

(** Every dependency name has a definition. *)
Definition dependencies_defined : Prop :=
  forall t d, In t typedefs -> In d (dependencies t) -> has_typedef d = true.

(** Two consecutive layers of the loop: the second holds exactly the
    definitions the first depends on. *)
Definition next_layer (l l' : list nat) : Prop :=
  (forall x y, In x l -> depends_on x y -> In y l')
  /\ (forall y, In y l' -> exists x, In x l /\ depends_on x y).

(** The layers from [l] on, down to one without dependencies. *)
Inductive tower : list nat -> list (list nat) -> Prop :=
| tower_last l :
    (forall x y, In x l -> ~ depends_on x y) -> tower l [l]
| tower_step l l' layers :
    next_layer l l' -> tower l' layers -> tower l (l :: layers).

(** The catalog without the parameters whose type has no definition. *)
Definition known_params (ps : list Param) : list Param :=
  filter (fun param => has_typedef (param_type param)) ps.

Definition without_unknown_params : dict :=
  map (fun kv => (fst kv, {| params := known_params (params (snd kv)) |}))
      prototypes.

End WithCatalogs.

End Resolver.

(** The iteration order "first occurrence first" is one admissible order;
    it serves to run the resolver on concrete catalogs. *)
#[program] Definition first_seen_order {A : Type}
    (eq_dec : forall a b : A, {a = b} + {a <> b}) : SetIter A :=
  {| set_iter := fun l => rev (nodup eq_dec (rev l)) |}.
Next Obligation.
  apply NoDup_rev, NoDup_nodup.
Qed.
Next Obligation.
  rewrite <- in_rev, nodup_In, <- in_rev. tauto.
Qed.

#[export] Instance first_seen_str : SetIter pystr := first_seen_order pystr_eq_dec.
#[export] Instance first_seen_id : SetIter nat := first_seen_order Nat.eq_dec.

(** ** Text rendering: [_get_function_prototype], [_get_function_asm_code] *)

Module Render.

Import Hasher.

Definition hex_digit (d : Z) : N :=
  if (d <? 10)%Z then Z.to_N (48 + d) else Z.to_N (55 + d).

Fixpoint hex_digits (fuel : nat) (n : Z) (acc : pystr) : pystr :=
  match fuel with
  | O => acc
  | S fuel' =>
      if (n <? 16)%Z then hex_digit n :: acc
      else hex_digits fuel' (n / 16)%Z (hex_digit (n mod 16)%Z :: acc)
  end.

(** [f'{n:X}'] for [0 <= n]. *)
Definition format_X (n : Z) : pystr :=
  hex_digits (S (Z.to_nat (Z.log2 n))) n [].

Definition zfill (width : nat) (s : pystr) : pystr :=
  repeat 48%N (width - length s) ++ s.

(** [f'{n:08X}']: upper-case hexadecimal, zero-padded to eight characters,
    the sign of a negative number counting as one of them. *)
Definition format_08X (n : Z) : pystr :=
  if (n <? 0)%Z then py "-" ++ zfill 7 (format_X (- n))
  else zfill 8 (format_X n).

(** The body of [for i in range(num_params)]; [i < num_params - 1] holds
    exactly when a parameter follows. *)
Fixpoint render_params (ps : list Param) : pystr :=
  match ps with
  | [] => []
  | param :: rest =>
      NL ++ TAB
      ++ (if param_in param then py "IN " else [])
      ++ (if param_out param then py "OUT " else [])
      ++ param_type param ++ py " " ++ param_name param
      ++ (if param_optional param then py " OPTIONAL" else [])
      ++ (match rest with [] => py ");" | _ :: _ => py "," end)
      ++ render_params rest
  end.

Definition _get_function_prototype (prototypes : dict)
    (function_name : pystr) : outcome pystr :=
  match dict_get function_name prototypes with
  | None => Raise ValueError_invalid_function_name
  | Some proto =>
      let signature := py "EXTERN_C NTSTATUS " ++ function_name ++ py "(" in
      Ok (match params proto with
          | [] => signature ++ py ");"
          | _ :: _ => signature ++ render_params (params proto)
          end)
  end.

Definition x64 : pystr := py "x64".
Definition x86_64 : pystr := py "x86_64".

Definition asm_x64 (function_name : pystr) (function_hash : Z) : pystr :=
  function_name ++ py " PROC" ++ NL
  ++ TAB ++ py "mov [rsp +8], rcx          ; Save registers." ++ NL
  ++ TAB ++ py "mov [rsp+16], rdx" ++ NL
  ++ TAB ++ py "mov [rsp+24], r8" ++ NL
  ++ TAB ++ py "mov [rsp+32], r9" ++ NL
  ++ TAB ++ py "sub rsp, 28h" ++ NL
  ++ TAB ++ py "mov ecx, 0" ++ format_08X function_hash
         ++ py "h        ; Load function hash into ECX." ++ NL
  ++ TAB ++ py "call SW2_GetSyscallNumber  ; Resolve function hash into syscall number." ++ NL
  ++ TAB ++ py "add rsp, 28h" ++ NL
  ++ TAB ++ py "mov rcx, [rsp +8]          ; Restore registers." ++ NL
  ++ TAB ++ py "mov rdx, [rsp+16]" ++ NL
  ++ TAB ++ py "mov r8, [rsp+24]" ++ NL
  ++ TAB ++ py "mov r9, [rsp+32]" ++ NL
  ++ TAB ++ py "mov r10, rcx" ++ NL
  ++ TAB ++ py "syscall                    ; Invoke system call." ++ NL
  ++ TAB ++ py "ret" ++ NL
  ++ function_name ++ py " ENDP" ++ NL.

Definition asm_x86_64 (function_name : pystr) (function_hash : Z) : pystr :=
  function_name ++ py " PROC" ++ NL
  ++ TAB ++ py "push 0" ++ format_08X function_hash ++ py "h" ++ NL
  ++ TAB ++ py "call SW2_GetSyscallNumber  ; Resolve function hash into syscall number." ++ NL
  ++ TAB ++ py "add esp, 4" ++ NL
  ++ TAB ++ py "mov ecx, fs:[0c0h]" ++ NL
  ++ TAB ++ py "test ecx, ecx" ++ NL
  ++ TAB ++ py "jne _wow64" ++ NL
  ++ TAB ++ py "lea edx, [esp+4h]" ++ NL
  ++ TAB ++ py "INT 02eh" ++ NL
  ++ TAB ++ py "ret" ++ NL
  ++ TAB ++ py "_wow64:" ++ NL
  ++ TAB ++ py "xor ecx, ecx" ++ NL
  ++ TAB ++ py "lea edx, [esp+4h]" ++ NL
  ++ TAB ++ py "call dword ptr fs:[0c0h]" ++ NL
  ++ TAB ++ py "ret" ++ NL
  ++ function_name ++ py " ENDP" ++ NL.

(** The hash is computed first, whatever the architecture; an architecture
    that is neither of the two leaves [code] empty. *)
Definition _get_function_asm_code (architecture : pystr) (seed : Z)
    (function_prefix : pystr) (function_name : pystr) : outcome pystr :=
  let* function_hash := _get_function_hash seed function_prefix function_name in
  if pystr_eqb architecture x64 then Ok (asm_x64 function_name function_hash)
  else if pystr_eqb architecture x86_64
       then Ok (asm_x86_64 function_name function_hash)
       else Ok [].

(** A chunk of the assembly file is the stub labelled [name]; a chunk of
    the header is the prototype of [name]. *)
Definition is_stub_of (name chunk : pystr) : Prop :=
  exists rest, chunk = name ++ py " PROC" ++ NL ++ rest.

Definition is_prototype_of (name chunk : pystr) : Prop :=
  exists rest, chunk = py "EXTERN_C NTSTATUS " ++ name ++ py "(" ++ rest.

End Render.

(** ** The session: [SysWhispers.generate] *)

(** What [generate] needs from the host: [os.path.basename] and
    [str.istitle]. *)
Class Platform : Type := {
  os_path_basename : pystr -> pystr;
  str_istitle : pystr -> bool
}.

(** The fields of the [SysWhispers] object that [generate] only reads, the
    command line's [args.architecture], and the two templates. *)
Record Env : Type := {
  function_prefix : pystr;
  seed : Z;
  typedefs : list TypeDefinition;
  architecture : pystr;
  base_c : pystr;
  base_h : pystr
}.

(** An operation on the output directory: [open(path, 'wb')], which creates
    the file or empties it, and [write] on a file so opened. *)
Inductive FileOp : Type :=
| Open (path : pystr)
| Write (path : pystr) (data : pystr).

(** What a call of [generate] can change: the prototype catalog of the
    object and the files, the latter as the operations done so far, oldest
    first. *)
Record State : Type := {
  prototypes : dict;
  files : list FileOp
}.

Definition M (A : Type) : Type := State -> outcome A * State.

Definition ret {A} (a : A) : M A := fun s => (Ok a, s).

Definition bind {A B} (m : M A) (k : A -> M B) : M B :=
  fun s => match m s with
           | (Ok a, s') => k a s'
           | (Raise e, s') => (Raise e, s')
           | (OutOfFuel, s') => (OutOfFuel, s')
           end.

Definition lift {A} (o : outcome A) : M A := fun s => (o, s).

Definition get_prototypes : M dict := fun s => (Ok (prototypes s), s).

Definition set_prototypes (d : dict) : M unit :=
  fun s => (Ok tt, {| prototypes := d; files := files s |}).

Definition file_op (op : FileOp) : M unit :=
  fun s => (Ok tt, {| prototypes := prototypes s; files := files s ++ [op] |}).

Declare Scope session_scope.
Delimit Scope session_scope with session.
Notation "x <- m ;; k" := (bind m (fun x => k))
  (at level 61, m at next level, right associativity) : session_scope.
Notation "m ;; k" := (bind m (fun _ => k))
  (at level 61, right associativity) : session_scope.

(** A [for] loop whose body acts on the state. *)
Fixpoint for_each {A} (l : list A) (body : A -> M unit) : M unit :=
  match l with
  | [] => ret tt
  | x :: l' => bind (body x) (fun _ => for_each l' body)
  end.

Module Session.

Import Render.

Open Scope session_scope.

(** The canonical prefix. *)
Definition Nt : pystr := py "Nt".

Definition preamble_x64 : pystr :=
  py ".CODE" ++ NL ++ NL ++ py "EXTERN SW2_GetSyscallNumber: PROC" ++ NL ++ NL.

Definition preamble_x86_64 : pystr :=
  py ".MODEL FLAT, C" ++ NL ++ py ".CODE" ++ NL ++ NL
  ++ py "ASSUME FS:NOTHING" ++ NL ++ NL
  ++ py "EXTERN SW2_GetSyscallNumber: PROC" ++ NL ++ NL.

(** The state after some more file operations. *)
Definition add_ops (s : State) (ops : list FileOp) : State :=
  {| prototypes := prototypes s; files := files s ++ ops |}.

Section Generate.

Context {platform : Platform}.
Context {set_of_str : SetIter pystr} {set_of_id : SetIter nat}.

Variable env : Env.

(** Lines 19-22: an empty request selects every catalog key; otherwise
    every requested name has to be a key. *)
Definition select_functions (function_names : list pystr) : M (list pystr) :=
  protos <- get_prototypes ;;
  match function_names with
  | [] => ret (dict_keys protos)
  | _ :: _ =>
      if existsb (fun f => negb (dict_mem f protos)) function_names
      then lift (Raise ValueError_prototypes_unavailable)
      else ret function_names
  end.

(** Lines 27-32, the loop of the prefix change. *)
Fixpoint rename_functions (function_names new_function_names : list pystr)
  : M (list pystr) :=
  match function_names with
  | [] => ret new_function_names
  | function_name :: rest =>
      let new_function_name :=
        replace1 Nt (function_prefix env) function_name in
      (if pystr_eqb new_function_name function_name then ret tt
       else
         protos <- get_prototypes ;;
         match dict_get function_name protos with
         | None => lift (Raise (KeyError function_name))
         | Some v =>
             set_prototypes
               (dict_del function_name (dict_set new_function_name v protos))
         end) ;;
      rename_functions rest (new_function_names ++ [new_function_name])
  end.

(** Lines 25-34. *)
Definition change_prefix (function_names : list pystr) : M (list pystr) :=
  if pystr_eqb (function_prefix env) Nt then ret function_names
  else rename_functions function_names [].

Definition c_path (basename : pystr) : pystr := basename ++ py ".c".

(** Lines 37-41. *)
Definition write_c (basename : pystr) : M unit :=
  file_op (Open (c_path basename)) ;;
  file_op (Write (c_path basename)
             (replace1 (py "<BASENAME>") (os_path_basename basename)
                (base_c env))).

(** Lines 44-46. *)
Definition basename_suffix (basename : pystr) : pystr :=
  let basename_suffix := py "stubs" in
  let basename_suffix :=
    if str_istitle (os_path_basename basename) then py "Stubs"
    else basename_suffix in
  if contains (py "_") basename then py "_" ++ basename_suffix
  else basename_suffix.

Definition asm_path (basename : pystr) : pystr :=
  basename ++ basename_suffix basename ++ py ".asm".

Definition write_stub (basename function_name : pystr) : M unit :=
  code <- lift (_get_function_asm_code (architecture env) (seed env)
                  (function_prefix env) function_name) ;;
  file_op (Write (asm_path basename) (code ++ NL)).

(** Lines 47-56. *)
Definition write_asm (basename : pystr) (function_names : list pystr)
  : M unit :=
  file_op (Open (asm_path basename)) ;;
  (if pystr_eqb (architecture env) x64
   then file_op (Write (asm_path basename) preamble_x64)
   else if pystr_eqb (architecture env) x86_64
        then file_op (Write (asm_path basename) preamble_x86_64)
        else lift (Raise ValueError_invalid_architecture)) ;;
  for_each function_names (write_stub basename) ;;
  file_op (Write (asm_path basename) (py "END")).

Definition h_path (basename : pystr) : pystr := basename ++ py ".h".

(** Line 70: [output_header.write(typedef.encode() + b'\n\n')]. *)
Definition write_typedef (basename typedef : pystr) : M unit :=
  data <- lift (encode typedef) ;;
  file_op (Write (h_path basename) (data ++ NL ++ NL)).

(** Line 74:
    [output_header.write((self._get_function_prototype(function_name) + '\n\n').encode())]. *)
Definition write_prototype (basename function_name : pystr) : M unit :=
  protos <- get_prototypes ;;
  signature <- lift (_get_function_prototype protos function_name) ;;
  data <- lift (encode (signature ++ NL ++ NL)) ;;
  file_op (Write (h_path basename) data).

(** Lines 59-77. *)
Definition write_header (fuel : nat) (basename : pystr)
    (function_names : list pystr) : M unit :=
  file_op (Open (h_path basename)) ;;
  file_op (Write (h_path basename)
             (replace1 (py "<SEED_VALUE>") (py "0x" ++ format_08X (seed env))
                (base_h env))) ;;
  protos <- get_prototypes ;;
  typedef_code <- lift (Resolver._get_typedefs (typedefs env) protos fuel
                          function_names) ;;
  for_each typedef_code (write_typedef basename) ;;
  for_each function_names (write_prototype basename) ;;
  file_op (Write (h_path basename) (py "#endif" ++ NL)).

(** [generate(self, function_names, basename)]; [fuel] bounds the number
    of rounds of the [while True] loop of [_get_typedefs]. *)
Definition generate (fuel : nat) (function_names : list pystr)
    (basename : pystr) : M unit :=
  function_names <- select_functions function_names ;;
  function_names <- change_prefix function_names ;;
  write_c basename ;;
  write_asm basename function_names ;;
  write_header fuel basename function_names.

(** Lines 19-34 together: the function list the files are written from,
    and the state they are written in. *)
Definition prepare (function_names : list pystr) : M (list pystr) :=
  selected <- select_functions function_names ;;
  change_prefix selected.

(** *** What a successful session writes *)

(** The prototype of [x] as it goes to the header: two line ends added,
    then encoded. *)
Definition encoded_prototype (protos : dict) (x : pystr) : outcome pystr :=
  let* signature := _get_function_prototype protos x in
  encode (signature ++ NL ++ NL).

Definition valid_architecture : Prop :=
  architecture env = x64 \/ architecture env = x86_64.

Definition preamble : pystr :=
  if pystr_eqb (architecture env) x64 then preamble_x64 else preamble_x86_64.

Definition asm_code (function_name : pystr) : outcome pystr :=
  _get_function_asm_code (architecture env) (seed env) (function_prefix env)
    function_name.

Definition c_ops (basename : pystr) : list FileOp :=
  [Open (c_path basename);
   Write (c_path basename)
     (replace1 (py "<BASENAME>") (os_path_basename basename) (base_c env))].

Definition asm_ops (basename : pystr) (codes : list pystr) : list FileOp :=
  [Open (asm_path basename); Write (asm_path basename) preamble]
  ++ map (fun code => Write (asm_path basename) (code ++ NL)) codes
  ++ [Write (asm_path basename) (py "END")].

Definition h_ops (basename : pystr) (typedef_code signatures : list pystr)
  : list FileOp :=
  [Open (h_path basename);
   Write (h_path basename)
     (replace1 (py "<SEED_VALUE>") (py "0x" ++ format_08X (seed env))
        (base_h env))]
  ++ map (fun t => Write (h_path basename) (t ++ NL ++ NL)) typedef_code
  ++ map (fun sg => Write (h_path basename) (sg ++ NL ++ NL)) signatures
  ++ [Write (h_path basename) (py "#endif" ++ NL)].

End Generate.

(** The paths passed to [open(..., 'wb')], in the order of the calls. *)
Fixpoint opened (ops : list FileOp) : list pystr :=
  match ops with
  | [] => []
  | Open path :: rest => path :: opened rest
  | Write _ _ :: rest => opened rest
  end.

End Session.

(** ** A concrete host: POSIX paths, ASCII letters *)

Module Posix.

(** [posixpath.basename]: what follows the last ['/']. *)
Fixpoint basename_from (p acc : pystr) : pystr :=
  match p with
  | [] => acc
  | c :: p' => if N.eqb c 47 then basename_from p' [] else basename_from p' (acc ++ [c])
  end.

Definition is_upper (c : N) : bool := (N.leb 65 c && N.leb c 90)%N.
Definition is_lower (c : N) : bool := (N.leb 97 c && N.leb c 122)%N.

(** [str.istitle] with ASCII letters as the only cased characters. *)
Fixpoint istitle_from (s : pystr) (previous_is_cased cased : bool) : bool :=
  match s with
  | [] => cased
  | c :: s' =>
      if is_upper c then
        if previous_is_cased then false else istitle_from s' true true
      else if is_lower c then
        if previous_is_cased then istitle_from s' true true else false
      else istitle_from s' false cased
  end.

#[export] Instance platform : Platform := {|
  os_path_basename := fun p => basename_from p [];
  str_istitle := fun s => istitle_from s false false
|}.

End Posix.

(** ** Dependency paths *)

Module Dependencies.

Section WithTypedefs.

Variable typedefs : list TypeDefinition.

(** [reaches n x z]: from definition [x], [n] dependencies in a row lead
    to definition [z]. *)
Inductive reaches : nat -> nat -> nat -> Prop :=
| reaches_here x : reaches 0 x x
| reaches_step n x y z :
    Resolver.depends_on typedefs x y -> reaches n y z -> reaches (S n) x z.

(** [x] lies on a dependency cycle. *)
Definition on_cycle (x : nat) : Prop := exists k, reaches (S k) x x.

End WithTypedefs.

End Dependencies.

(** ** Order of first use *)

(** The elements of [l], each once, where it comes first. *)
Definition first_seen (l : list pystr) : list pystr :=
  rev (nodup pystr_eq_dec (rev l)).

(** The type names of the parameters of [function_names], function by
    function, parameter by parameter. *)
Definition parameter_types (prototypes : dict) (function_names : list pystr)
  : list pystr :=
  flat_map (fun f => match dict_get f prototypes with
                     | Some proto => map param_type (params proto)
                     | None => []
                     end)
           function_names.

(** ** Texts that can be written *)



(** ** What a computation may touch *)

(** [s'] is [s] after some more file operations, the catalog left alone. *)
Definition extends (s s' : State) : Prop :=
  prototypes s' = prototypes s /\ exists ops, files s' = files s ++ ops.

(** Whatever its outcome, [m] only appends file operations. *)
Definition only_appends {A} (m : M A) : Prop :=
  forall s r s', m s = (r, s') -> extends s s'.

(** ** The command line: the [__main__] block *)

Module Cli.

Import Session.

Definition QUOTE : pystr := [34%N].
Definition COMMA : N := 44%N.

(** [s.split(',')], [current] being the piece under way. *)
Fixpoint split_from (s current : pystr) : list pystr :=
  match s with
  | [] => [current]
  | c :: s' =>
      if N.eqb c COMMA then current :: split_from s' []
      else split_from s' (current ++ [c])
  end.

Definition split_comma (s : pystr) : list pystr := split_from s [].

(** [','.join(l)] *)
Fixpoint join_comma (l : list pystr) : pystr :=
  match l with
  | [] => []
  | x :: l' =>
      match l' with
      | [] => x
      | _ :: _ => x ++ [COMMA] ++ join_comma l'
      end
  end.

(** The options read by the block itself; [--architecture] and
    [--function-prefix] are in [Env].  An option that was not given is
    [None]. *)
Record Args : Type := {
  preset : option pystr;
  functions : option pystr;
  out_file : pystr
}.

(** Truth value of an optional string: [None] and [''] are false. *)
Definition truthy (o : option pystr) : bool :=
  match o with
  | Some (_ :: _) => true
  | _ => false
  end.

(** [o == literal] *)
Definition is_literal (o : option pystr) (literal : pystr) : bool :=
  match o with
  | Some s => pystr_eqb s literal
  | None => false
  end.

Definition banner : pystr :=
  py "                                                 " ++ NL
  ++ py "                  .                         ,--. " ++ NL
  ++ py ",-. . . ,-. . , , |-. o ,-. ,-. ,-. ,-. ,-.    / " ++ NL
  ++ py "`-. | | `-. |/|/  | | | `-. | | |-' |   `-. ,-'  " ++ NL
  ++ py "`-' `-| `-' ' '   ' ' ' `-' |-' `-' '   `-' `--- " ++ NL
  ++ py "     /|                     |  @Jackson_T        " ++ NL
  ++ py "    `-'                     '  @modexpblog, 2021 " ++ NL ++ NL
  ++ py "SysWhispers2: Why call the kernel when you can whisper?" ++ NL.

(** The list of the preset [common]. *)
Definition common_functions : list pystr :=
  [ py "NtCreateProcess";
    py "NtCreateThreadEx";
    py "NtOpenProcess";
    py "NtOpenProcessToken";
    py "NtTestAlert";
    py "NtOpenThread";
    py "NtSuspendProcess";
    py "NtSuspendThread";
    py "NtResumeProcess";
    py "NtResumeThread";
    py "NtGetContextThread";
    py "NtSetContextThread";
    py "NtClose";
    py "NtReadVirtualMemory";
    py "NtWriteVirtualMemory";
    py "NtAllocateVirtualMemory";
    py "NtProtectVirtualMemory";
    py "NtFreeVirtualMemory";
    py "NtQuerySystemInformation";
    py "NtQueryDirectoryFile";
    py "NtQueryInformationFile";
    py "NtQueryInformationProcess";
    py "NtQueryInformationThread";
    py "NtCreateSection";
    py "NtOpenSection";
    py "NtMapViewOfSection";
    py "NtUnmapViewOfSection";
    py "NtAdjustPrivilegesToken";
    py "NtDeviceIoControlFile";
    py "NtQueueApcThread";
    py "NtWaitForMultipleObjects" ].

Definition invalid_preset_message : pystr :=
  py "ERROR: Invalid preset provided. Must be " ++ QUOTE ++ py "all" ++ QUOTE
  ++ py " or " ++ QUOTE ++ py "common" ++ QUOTE ++ py ".".

Definition usage_messages : list pystr :=
  [py "ERROR:   --preset XOR --functions switch must be specified." ++ NL;
   py "EXAMPLE: ./syswhispers.py --preset common --out-file syscalls_common";
   py "EXAMPLE: ./syswhispers.py --functions NtTestAlert,NtGetCurrentProcessorNumber --out-file syscalls_test"].

Section Main.

Context {platform : Platform}.
Context {set_of_str : SetIter pystr} {set_of_id : SetIter nat}.

Variable env : Env.

(** The four [print] calls that end a successful [generate]. *)
Definition report (basename : pystr) : list pystr :=
  [py "Complete! Files written to:";
   TAB ++ h_path basename;
   TAB ++ c_path basename;
   TAB ++ asm_path basename].

(** A call of [generate] from the block: what has been printed so far,
    then the call, then its report if it returns. *)
Definition call_generate (fuel : nat) (printed : list pystr)
    (function_names : list pystr) (basename : pystr) (s : State)
  : list pystr * outcome unit * State :=
  match generate env fuel function_names basename s with
  | (Ok tt, s') => (printed ++ report basename, Ok tt, s')
  | (Raise e, s') => (printed, Raise e, s')
  | (OutOfFuel, s') => (printed, OutOfFuel, s')
  end.

(** The block from its first [print] on: the arguments of the [print]
    calls in order, the outcome, and the final state. *)
Definition main (fuel : nat) (args : Args) (s : State)
  : list pystr * outcome unit * State :=
  let printed := [banner] in
  if is_literal (preset args) (py "all") then
    call_generate fuel (printed ++ [py "All functions selected." ++ NL])
      [] (out_file args) s
  else if is_literal (preset args) (py "common") then
    call_generate fuel (printed ++ [py "Common functions selected." ++ NL])
      common_functions (out_file args) s
  else if truthy (preset args) then
    (printed ++ [invalid_preset_message], Ok tt, s)
  else if negb (truthy (functions args)) then
    (printed ++ usage_messages, Ok tt, s)
  else
    let functions :=
      match functions args with
      | Some ((_ :: _) as f) => split_comma f
      | _ => []
      end in
    call_generate fuel printed functions (out_file args) s.

End Main.

End Cli.

(** ** Reading text back *)

Module Hex.

(** The value of one of the digits [0]-[9], [A]-[F]. *)
Definition digit_value (c : N) : option Z :=
  if (N.leb 48 c && N.leb c 57)%N then Some (Z.of_N c - 48)%Z
  else if (N.leb 65 c && N.leb c 70)%N then Some (Z.of_N c - 55)%Z
  else None.

Fixpoint value_from (s : pystr) (acc : Z) : option Z :=
  match s with
  | [] => Some acc
  | c :: s' =>
      match digit_value c with
      | Some d => value_from s' (acc * 16 + d)%Z
      | None => None
      end
  end.

(** [int(s, 16)] for a non-empty string of such digits. *)
Definition value (s : pystr) : option Z :=
  match s with
  | [] => None
  | _ :: _ => value_from s 0%Z
  end.

End Hex.

(** [x in s] for strings, as a proposition. *)
Definition occurs_in (x s : pystr) : Prop :=
  exists before after, s = before ++ x ++ after.

(** ** Small catalogs *)

Module Examples.

Definition param_of (name type : string) : Param :=
  {| param_name := py name; param_type := py type;
     param_in := true; param_out := false; param_optional := false |}.

(** A pointer type, known under two names, over a structure type. *)
Definition PFOO_def : TypeDefinition :=
  {| identifiers := [py "PFOO"; py "LPFOO"];
     dependencies := [py "FOO"];
     definition := py "typedef FOO* PFOO, LPFOO;" |}.

Definition FOO_def : TypeDefinition :=
  {| identifiers := [py "FOO"];
     dependencies := [];
     definition := py "typedef struct _FOO { int x; } FOO;" |}.

Definition two_layers : list TypeDefinition := [PFOO_def; FOO_def].

(** The same without the structure type: [FOO] is named but not defined. *)
Definition dangling : list TypeDefinition := [PFOO_def].

(** The structure type made to refer back to the pointer type. *)
Definition cyclic : list TypeDefinition :=
  [PFOO_def;
   {| identifiers := [py "FOO"];
      dependencies := [py "PFOO"];
      definition := py "typedef struct _FOO { PFOO next; } FOO;" |}].

(** One definition without dependencies, known under two names. *)
Definition BAR_def : TypeDefinition :=
  {| identifiers := [py "BAR"; py "PBAR"];
     dependencies := [];
     definition := py "typedef struct _BAR { int y; } BAR, *PBAR;" |}.

Definition catalog : dict :=
  [ (py "NtClose", {| params := [param_of "Handle" "HANDLE"] |});
    (py "NtFoo", {| params := [param_of "Foo" "PFOO"; param_of "Count" "ULONG"] |});
    (py "NtBar", {| params := [param_of "Bar" "BAR"; param_of "Out" "PBAR"] |});
    (py "NtTestAlert", {| params := [] |}) ].

Definition depth_two_layers (x : nat) : nat :=
  match x with
  | 0 => 1
  | _ => 0
  end.

Definition session (arch prefix : string) : Env :=
  {| function_prefix := py prefix;
     seed := 269063580;
     typedefs := two_layers;
     architecture := py arch;
     base_c := py "#include <BASENAME>.h";
     base_h := py "#define SW2_SEED <SEED_VALUE>" |}.


Definition fresh : State := {| prototypes := catalog; files := [] |}.




(** [generate(function_names, 'syscalls')] on the POSIX host, started on
    the catalog above with no file written yet. *)
Definition run (arch prefix : string) (function_names : list pystr)
  : outcome unit * State :=
  Session.generate (platform := Posix.platform) (session arch prefix) 2
    function_names (py "syscalls") fresh.

End Examples.

(** * Properties *)

(** ** Strings *)

Lemma pystr_eqb_eq (a b : pystr) : pystr_eqb a b = true <-> a = b.
Proof.
  unfold pystr_eqb. destruct (pystr_eq_dec a b); split; congruence.
Qed.

Lemma pystr_eqb_refl (a : pystr) : pystr_eqb a a = true.
Proof. now apply pystr_eqb_eq. Qed.

Lemma pystr_eqb_neq (a b : pystr) : pystr_eqb a b = false <-> a <> b.
Proof.
  unfold pystr_eqb. destruct (pystr_eq_dec a b); split; congruence.
Qed.

Lemma Forall_skipn {A} (P : A -> Prop) (n : nat) (l : list A) :
  Forall P l -> Forall P (skipn n l).
Proof.
  revert l. induction n as [|n IH]; intros l H; simpl; [assumption|].
  destruct H; [constructor | now apply IH].
Qed.

(** [replace] brings in no character besides those of [new]. *)
Lemma replace1_Forall (P : N -> Prop) (old new s : pystr) :
  Forall P new -> Forall P s -> Forall P (replace1 old new s).
Proof.
  intros Hnew. induction s as [|c s IH]; intros Hs; simpl.
  - destruct (startswith old []).
    + apply Forall_app. split; [assumption | apply Forall_skipn; constructor].
    + constructor.
  - destruct (startswith old (c :: s)).
    + apply Forall_app. split; [assumption | now apply Forall_skipn].
    + inversion Hs; subst. constructor; auto.
Qed.

Lemma startswith_skipn (p s : pystr) :
  startswith p s = true -> p ++ skipn (length p) s = s.
Proof.
  revert s. induction p as [|a p IH]; intros s H; [reflexivity|].
  destruct s as [|b s]; [discriminate|]. cbn in H.
  apply andb_true_iff in H as [Hab Hps]. apply N.eqb_eq in Hab as ->.
  cbn. now rewrite IH.
Qed.

(** Replacing a string by itself changes nothing. *)
Lemma replace1_same (old s : pystr) : replace1 old old s = s.
Proof.
  induction s as [|c s IH]; cbn.
  - destruct (startswith old []) eqn:E; [|reflexivity].
    now apply startswith_skipn.
  - destruct (startswith old (c :: s)) eqn:E.
    + now apply startswith_skipn.
    + now rewrite IH.
Qed.

Lemma map_replace1_same (old : pystr) (l : list pystr) :
  map (replace1 old old) l = l.
Proof.
  induction l as [|x l IH]; [reflexivity|].
  cbn [map]. now rewrite replace1_same, IH.
Qed.

(** Without an occurrence there is nothing to replace. *)
Lemma replace1_absent (old new s : pystr) :
  contains old s = false -> replace1 old new s = s.
Proof.
  induction s as [|c s IH]; cbn; intros H.
  - apply orb_false_iff in H as [-> _]. reflexivity.
  - apply orb_false_iff in H as [-> H]. now rewrite IH.
Qed.

(** ** The name hasher *)

Module HasherFacts.

Import Hasher.
Open Scope Z_scope.

Lemma slices_cons (c : N) (s : pystr) (n : nat) :
  map (fun i => firstn 2 (skipn i (c :: s))) (seq 1 n)
  = map (fun i => firstn 2 (skipn i s)) (seq 0 n).
Proof.
  rewrite <- seq_shift, map_map. reflexivity.
Qed.

Lemma segments_cons (c : N) (s : pystr) :
  segments (c :: s)
  = match s with
    | [] => []
    | c1 :: _ => [[c; c1]]
    end ++ segments s.
Proof.
  unfold segments. cbn [length seq map filter].
  rewrite slices_cons. destruct s as [|c1 s]; reflexivity.
Qed.

Lemma unpack_H_ascii (c0 c1 : N) :
  (c0 < 128)%N -> (c1 < 128)%N ->
  unpack_H [c0; c1] = Ok (Z.of_N c0 + 256 * Z.of_N c1).
Proof.
  intros H0 H1. unfold unpack_H, is_surrogate. cbn [existsb].
  assert (E0 : (55296 <=? c0)%N = false) by (apply N.leb_gt; lia).
  assert (E1 : (55296 <=? c1)%N = false) by (apply N.leb_gt; lia).
  rewrite E0, E1. cbn.
  apply N.ltb_lt in H0, H1. rewrite H0, H1. reflexivity.
Qed.

Lemma hash_loop_overlapping (name : pystr) :
  ascii_only name ->
  forall hash,
    hash_loop (segments name) hash
    = Ok (fold_left (mix ror8) (overlapping_units name) hash).
Proof.
  induction name as [|c s IH]; intros Hascii hash.
  - reflexivity.
  - rewrite segments_cons. inversion Hascii as [|? ? Hc Hs]; subst.
    destruct s as [|c1 s'].
    + reflexivity.
    + inversion Hs as [|? ? Hc1 _]; subst.
      cbn [app hash_loop overlapping_units fold_left].
      rewrite (unpack_H_ascii _ _ Hc Hc1). cbn [obind].
      rewrite IH by assumption. reflexivity.
Qed.

Lemma lor_disjoint_add (hi lo : Z) :
  0 <= lo < 2 ^ 24 -> Z.lor lo (hi * 2 ^ 24) = lo + hi * 2 ^ 24.
Proof.
  intros Hlo.
  assert (Hdisj : Z.land lo (hi * 2 ^ 24) = 0).
  { apply Z.bits_inj'. intros n Hn.
    rewrite Z.land_spec, Z.bits_0, <- Z.shiftl_mul_pow2 by lia.
    destruct (Z.ltb_spec n 24).
    - rewrite Z.shiftl_spec_low by lia. apply andb_false_r.
    - destruct (Z.eq_dec lo 0) as [->|Hnz]; [now rewrite Z.bits_0|].
      rewrite (Z.bits_above_log2 lo n); [reflexivity | lia |].
      apply Z.lt_le_trans with 24; [apply Z.log2_lt_pow2; lia | lia]. }
  rewrite <- Z.lxor_lor by assumption.
  symmetry. now apply Z.add_nocarry_lxor.
Qed.

(** On 32-bit values [ror8] is the rotation the specification names. *)
Lemma ror8_rotates (v : Z) :
  0 <= v < 2 ^ 32 -> ror8 v = rotateRight8 v.
Proof.
  intros Hv. unfold ror8, rotateRight8, mask32.
  change (2 ^ 32 - 1) with (Z.ones 32).
  rewrite !Z.land_ones by lia.
  rewrite Z.shiftr_div_pow2, Z.shiftl_mul_pow2 by lia.
  rewrite (Z.mod_small v (2 ^ 32)) by lia.
  assert (Hlow : 0 <= v / 2 ^ 8 < 2 ^ 24).
  { split; [apply Z.div_pos; lia | apply Z.div_lt_upper_bound; lia]. }
  rewrite (Z.mod_small (v / 2 ^ 8)) by lia.
  replace ((v * 2 ^ 24) mod 2 ^ 32) with ((v mod 2 ^ 8) * 2 ^ 24).
  2:{ change (2 ^ 32) with (2 ^ 8 * 2 ^ 24).
      rewrite Z.mul_mod_distr_r by lia. reflexivity. }
  now apply lor_disjoint_add.
Qed.

Lemma log2_below (a n : Z) : 0 < n -> 0 <= a < 2 ^ n -> Z.log2 a < n.
Proof.
  intros Hn Ha. destruct (Z.eq_dec a 0) as [->|Hnz]; [exact Hn|].
  apply Z.log2_lt_pow2; lia.
Qed.

Lemma below_pow2 (a n : Z) : 0 < n -> 0 <= a -> Z.log2 a < n -> a < 2 ^ n.
Proof.
  intros Hn Ha Hlog. destruct (Z.eq_dec a 0) as [->|Hnz].
  - apply Z.pow_pos_nonneg; lia.
  - apply Z.log2_lt_pow2; lia.
Qed.

Lemma lor_range (a b n : Z) :
  0 < n -> 0 <= a < 2 ^ n -> 0 <= b < 2 ^ n -> 0 <= Z.lor a b < 2 ^ n.
Proof.
  intros Hn Ha Hb.
  assert (Hpos : 0 <= Z.lor a b) by (apply Z.lor_nonneg; lia).
  split; [assumption|]. apply below_pow2; try assumption.
  rewrite Z.log2_lor by lia.
  apply Z.max_lub_lt; now apply log2_below.
Qed.

Lemma lxor_range (a b n : Z) :
  0 < n -> 0 <= a < 2 ^ n -> 0 <= b < 2 ^ n -> 0 <= Z.lxor a b < 2 ^ n.
Proof.
  intros Hn Ha Hb.
  assert (Hpos : 0 <= Z.lxor a b) by (apply Z.lxor_nonneg; lia).
  split; [assumption|]. apply below_pow2; try assumption.
  apply Z.le_lt_trans with (Z.max (Z.log2 a) (Z.log2 b)).
  - apply Z.log2_lxor; lia.
  - apply Z.max_lub_lt; now apply log2_below.
Qed.

Lemma overlapping_units_length (s : pystr) (c : N) :
  length (overlapping_units (s ++ [c])) = length s.
Proof.
  induction s as [|a s IH]; [reflexivity|].
  destruct s as [|b s']; [reflexivity|].
  cbn [app overlapping_units length] in *. now rewrite IH.
Qed.

Lemma overlapping_units_nonneg (s : pystr) :
  Forall (fun u => 0 <= u) (overlapping_units s).
Proof.
  induction s as [|a s IH]; [constructor|].
  destruct s as [|b s']; [constructor|].
  cbn [overlapping_units]. constructor; [lia | exact IH].
Qed.

Lemma rotateRight8_range (v : Z) : 0 <= rotateRight8 v < 2 ^ 32.
Proof.
  unfold rotateRight8.
  assert (H32 : 0 <= v mod 2 ^ 32 < 2 ^ 32) by (apply Z.mod_pos_bound; lia).
  assert (H8 : 0 <= v mod 2 ^ 8 < 2 ^ 8) by (apply Z.mod_pos_bound; lia).
  assert (Hq : 0 <= v mod 2 ^ 32 / 2 ^ 8 < 2 ^ 24).
  { split; [apply Z.div_pos; lia | apply Z.div_lt_upper_bound; lia]. }
  lia.
Qed.

(** As long as no sum carries out of 32 bits, the accumulator stays a
    32-bit value and the source's [ror8] rotates it. *)
Lemma carry_free_fold (units : list Z) :
  Forall (fun u => 0 <= u) units ->
  forall accumulator,
    0 <= accumulator < 2 ^ 32 ->
    carry_free units accumulator = true ->
    fold_left (mix ror8) units accumulator
    = fold_left (mix rotateRight8) units accumulator
    /\ 0 <= fold_left (mix rotateRight8) units accumulator < 2 ^ 32.
Proof.
  induction 1 as [|u units Hu _ IH]; intros accumulator Hacc Hfree.
  - split; [reflexivity | exact Hacc].
  - cbn [carry_free] in Hfree. apply andb_true_iff in Hfree as [Hsum Hrest].
    apply Z.ltb_lt in Hsum.
    cbn [fold_left]. unfold mix at 2 5 7. rewrite (ror8_rotates _ Hacc).
    pose proof (rotateRight8_range accumulator) as Hrot.
    apply IH; [|exact Hrest].
    unfold mix. apply lxor_range; lia.
Qed.

(** C2 (amended).  For every 32-bit seed, every prefix and every ASCII
    function name, the hash walks the 16-bit little-endian units of the name
    (first occurrence of the prefix replaced by [Zw], null terminator
    appended) taken at every character position: unit [i] is made of
    characters [i] and [i + 1], so consecutive units overlap in one character
    and there are as many units as characters before the terminator.  As long
    as no sum [u + rotateRight8(accumulator)] carries out of 32 bits, the
    hash is the seed folded with
    [accumulator XOR (u + rotateRight8(accumulator))] over these units,
    [rotateRight8] being the rotation of a 32-bit value, and is itself a
    32-bit value.  What a carry leads to is left to C4. *)
Theorem hash_walks_overlapping_units
    (seed : Z) (function_prefix function_name : pystr) :
  0 <= seed < 2 ^ 32 ->
  ascii_only function_name ->
  carry_free
    (overlapping_units (replace1 function_prefix Zw function_name ++ NUL))
    seed = true ->
  let name := replace1 function_prefix Zw function_name in
  let hash := fold_left (mix rotateRight8) (overlapping_units (name ++ NUL)) seed in
  _get_function_hash seed function_prefix function_name = Ok hash
  /\ 0 <= hash < 2 ^ 32
  /\ length (overlapping_units (name ++ NUL)) = length name.
Proof.
  intros Hseed Hascii Hfree name hash.
  destruct (carry_free_fold _ (overlapping_units_nonneg (name ++ NUL))
              seed Hseed Hfree) as [Hfold Hrange].
  split; [|split].
  - unfold _get_function_hash. rewrite hash_loop_overlapping.
    + fold name. rewrite Hfold. reflexivity.
    + apply Forall_app. split.
      * apply replace1_Forall; [|assumption].
        unfold Zw; cbn. repeat constructor.
      * repeat constructor.
  - exact Hrange.
  - apply overlapping_units_length.
Qed.

Lemma hash_walks_overlapping_units_witness :
  _get_function_hash 268435456 (py "Nt") (py "NtClose")
  = Ok (fold_left (mix rotateRight8)
          (overlapping_units (replace1 (py "Nt") Zw (py "NtClose") ++ NUL))
          268435456)
  /\ 0 <= fold_left (mix rotateRight8)
            (overlapping_units (replace1 (py "Nt") Zw (py "NtClose") ++ NUL))
            268435456 < 2 ^ 32
  /\ length (overlapping_units (replace1 (py "Nt") Zw (py "NtClose") ++ NUL))
     = length (replace1 (py "Nt") Zw (py "NtClose")).
Proof.
  apply (hash_walks_overlapping_units 268435456 (py "Nt") (py "NtClose")).
  - lia.
  - unfold ascii_only. cbn. repeat constructor.
  - vm_compute. reflexivity.
Defined.

(** C2 as stated fails: on [NtClose] with seed [0x10000000] the source's
    hash is not the one obtained from non-overlapping units. *)
Lemma hash_not_as_specified :
  _get_function_hash 268435456 (py "Nt") (py "NtClose")
  <> Ok (hash_as_specified 268435456 (py "Nt") (py "NtClose")).
Proof.
  vm_compute. intros H. discriminate H.
Qed.

(** C4 at a failing input: with seed [0x1009959C], which [random.randint]
    can draw, the hash of [NtClose] is [0x1FA646F54], a 33-bit number. *)
Theorem hash_of_NtClose_exceeds_32_bits :
  _get_function_hash 269063580 (py "Nt") (py "NtClose") = Ok 8495853396
  /\ 2 ^ 28 <= 269063580 <= 2 ^ 32 - 1
  /\ 2 ^ 32 <= 8495853396.
Proof.
  split; [vm_compute; reflexivity | lia].
Qed.


End HasherFacts.

(** ** Outcomes *)

Lemma omap_Ok {A B} (f : A -> outcome B) (l : list A) (ys : list B) :
  omap f l = Ok ys -> Forall2 (fun x y => f x = Ok y) l ys.
Proof.
  revert ys. induction l as [|x l IH]; intros ys H; simpl in H.
  - injection H as <-. constructor.
  - destruct (f x) as [y| |] eqn:Ex; try discriminate. simpl in H.
    destruct (omap f l) as [ys'| |]; try discriminate. simpl in H.
    injection H as <-. constructor; auto.
Qed.

Lemma omap_total {A B} (f : A -> outcome B) (l : list A) :
  (forall x, In x l -> exists y, f x = Ok y) ->
  exists ys, omap f l = Ok ys.
Proof.
  induction l as [|x l IH]; intros H; simpl.
  - now exists [].
  - destruct (H x (or_introl eq_refl)) as [y ->].
    destruct IH as [ys ->]; [intros; apply H; now right|].
    now exists (y :: ys).
Qed.

Lemma omap_In {A B} (f : A -> outcome B) (l : list A) (ys : list B) :
  omap f l = Ok ys ->
  forall y, In y ys <-> exists x, In x l /\ f x = Ok y.
Proof.
  intros H. apply omap_Ok in H.
  induction H as [|x y l ys Hxy _ IH]; intros z; simpl.
  - split; [tauto | intros (x & [] & _)].
  - rewrite IH. split.
    + intros [<-|(x' & Hin & Hf)]; eauto.
    + intros (x' & [<-|Hin] & Hf); [left; congruence | eauto].
Qed.

(** One failing element makes the comprehension fail, with the same
    exception when the element expression raises no other. *)
Lemma omap_raises {A B} (f : A -> outcome B) (e : exn) (l : list A) :
  (forall x, In x l -> f x = Raise e \/ exists y, f x = Ok y) ->
  (exists x, In x l /\ f x = Raise e) ->
  omap f l = Raise e.
Proof.
  induction l as [|x l IH]; intros Hall (x0 & Hin & Hx0).
  - destruct Hin.
  - simpl. destruct (Hall x (or_introl eq_refl)) as [->|[y Hy]]; [reflexivity|].
    rewrite Hy. simpl. rewrite IH; [reflexivity | |].
    + intros; apply Hall; now right.
    + destruct Hin as [<-|Hin]; [congruence | eauto].
Qed.

(** ** Dictionaries *)

Lemma dict_mem_get (k : pystr) (d : dict) :
  dict_mem k d = true <-> exists v, dict_get k d = Some v.
Proof.
  induction d as [|[k' v'] d IH]; simpl.
  - split; [discriminate | intros [v H]; discriminate].
  - destruct (pystr_eqb k k'); simpl; [split; eauto | exact IH].
Qed.

Lemma dict_mem_keys (k : pystr) (d : dict) :
  dict_mem k d = true <-> In k (dict_keys d).
Proof.
  unfold dict_mem, dict_keys. rewrite existsb_exists, in_map_iff. split.
  - intros (kv & Hin & E). apply pystr_eqb_eq in E. exists kv. split; auto.
  - intros (kv & E & Hin). exists kv. split; [assumption|].
    now apply pystr_eqb_eq.
Qed.

Lemma pystr_eqb_sym (a b : pystr) : pystr_eqb a b = pystr_eqb b a.
Proof.
  destruct (pystr_eqb b a) eqn:E.
  - apply pystr_eqb_eq in E as ->. apply pystr_eqb_refl.
  - apply pystr_eqb_neq. apply pystr_eqb_neq in E. congruence.
Qed.

Lemma dict_mem_set_keeps (f k : pystr) (v : Prototype) (d : dict) :
  dict_mem f d = true -> dict_mem f (dict_set k v d) = true.
Proof.
  unfold dict_mem. induction d as [|[k' v'] d IH]; [discriminate|].
  cbn [existsb fst dict_set]. intros H.
  destruct (pystr_eqb k k'); cbn [existsb fst]; [exact H|].
  apply orb_true_iff in H as [H|H]; apply orb_true_iff; [now left|].
  right. now apply IH.
Qed.

Lemma dict_mem_del_keeps (f k : pystr) (d : dict) :
  dict_mem f d = true -> f <> k -> dict_mem f (dict_del k d) = true.
Proof.
  unfold dict_mem, dict_del. rewrite !existsb_exists.
  intros (kv & Hin & E) Hne. exists kv. split; [|assumption].
  apply filter_In. split; [assumption|].
  apply pystr_eqb_eq in E as <-. apply negb_true_iff, pystr_eqb_neq.
  congruence.
Qed.

(** ** The dependency resolver *)

Module ResolverFacts.

Import Resolver.

Lemma mem_str_In (n : pystr) (l : list pystr) : mem_str n l = true <-> In n l.
Proof.
  unfold mem_str. rewrite existsb_exists. split.
  - intros (x & Hin & E). apply pystr_eqb_eq in E. now subst.
  - intros H. exists n. split; [assumption | apply pystr_eqb_refl].
Qed.

Lemma mem_id_In (i : nat) (l : list nat) : mem_id i l = true <-> In i l.
Proof.
  unfold mem_id. rewrite existsb_exists. split.
  - intros (x & Hin & E). apply Nat.eqb_eq in E. now subst.
  - intros H. exists i. split; [assumption | apply Nat.eqb_refl].
Qed.

Section WithCatalogs.

Context {set_of_str : SetIter pystr} {set_of_id : SetIter nat}.

Variable typedefs : list TypeDefinition.
Variable prototypes : dict.

Local Abbreviation first_index := Resolver.first_index.
Local Abbreviation has_typedef := (Resolver.has_typedef typedefs).
Local Abbreviation _names_to_ids := (Resolver._names_to_ids typedefs).
Local Abbreviation depends_on := (Resolver.depends_on typedefs).
Local Abbreviation requested := (Resolver.requested typedefs prototypes).
Local Abbreviation needed := (Resolver.needed typedefs prototypes).

(** *** Looking a name up *)

Lemma first_index_cases (n : pystr) (tds : list TypeDefinition) (i : nat) :
  first_index n tds i = Raise StopIteration
  \/ exists j, first_index n tds i = Ok j.
Proof.
  revert i. induction tds as [|t tds IH]; intros i; simpl.
  - now left.
  - destruct (mem_str n (identifiers t)); [right; eauto | apply IH].
Qed.

Lemma first_index_found (n : pystr) (tds : list TypeDefinition) (i j : nat) :
  first_index n tds i = Ok j ->
  i <= j /\ exists t, nth_error tds (j - i) = Some t /\ In n (identifiers t).
Proof.
  revert i. induction tds as [|t tds IH]; intros i H; simpl in H.
  - discriminate.
  - destruct (mem_str n (identifiers t)) eqn:E.
    + injection H as <-. split; [lia|]. rewrite Nat.sub_diag. exists t.
      split; [reflexivity | now apply mem_str_In].
    + apply IH in H as (Hle & t' & Hnth & Hin). split; [lia|].
      exists t'. split; [|assumption].
      replace (j - i) with (S (j - S i)) by lia. assumption.
Qed.

Lemma first_index_valid (n : pystr) (j : nat) :
  first_index n typedefs 0 = Ok j -> j < length typedefs.
Proof.
  intros H. apply first_index_found in H as (_ & t & Hnth & _).
  rewrite Nat.sub_0_r in Hnth. apply nth_error_Some. congruence.
Qed.

Lemma has_typedef_first_index (n : pystr) (tds : list TypeDefinition) (i : nat) :
  existsb (fun t => mem_str n (identifiers t)) tds = true <->
  exists j, first_index n tds i = Ok j.
Proof.
  revert i. induction tds as [|t tds IH]; intros i; simpl.
  - split; [discriminate | intros [j H]; discriminate].
  - destruct (mem_str n (identifiers t)); simpl.
    + split; eauto.
    + apply IH.
Qed.

Lemma has_typedef_found (n : pystr) :
  has_typedef n = true <-> exists j, first_index n typedefs 0 = Ok j.
Proof. apply has_typedef_first_index. Qed.

Lemma has_typedef_missing (n : pystr) :
  has_typedef n = false -> first_index n typedefs 0 = Raise StopIteration.
Proof.
  intros H. destruct (first_index_cases n typedefs 0) as [E|[j E]]; [assumption|].
  assert (has_typedef n = true) by (apply has_typedef_found; eauto).
  congruence.
Qed.

(** *** Scanning the parameters *)

Lemma scan_params_In (ps : list Param) (used : list pystr) (n : pystr) :
  In n (scan_params typedefs ps used) <->
  In n used
  \/ exists param, In param ps /\ param_type param = n /\ has_typedef n = true.
Proof.
  revert used. induction ps as [|p ps IH]; intros used; simpl.
  - split; [tauto | intros [H|(p & [] & _)]; assumption].
  - rewrite IH. destruct (has_typedef (param_type p)) eqn:Ety.
    + destruct (mem_str (param_type p) used) eqn:Emem.
      * apply mem_str_In in Emem. split.
        -- intros [H|(q & Hq & Hn & Ht)]; [tauto | right; eauto].
        -- intros [H|(q & [<-|Hq] & Hn & Ht)]; [tauto | subst; tauto | right; eauto].
      * rewrite in_app_iff. simpl. split.
        -- intros [[H|[H|[]]]|(q & Hq & Hn & Ht)];
             [tauto | right; exists p; subst; tauto | right; eauto].
        -- intros [H|(q & [<-|Hq] & Hn & Ht)]; [tauto | tauto | right; eauto].
    + split.
      * intros [H|(q & Hq & Hn & Ht)]; [tauto | right; eauto].
      * intros [H|(q & [<-|Hq] & Hn & Ht)]; [tauto | congruence | right; eauto].
Qed.

Lemma scan_functions_Ok (function_names : list pystr) :
  (forall f, In f function_names -> dict_mem f prototypes = true) ->
  forall used, exists used',
    scan_functions typedefs prototypes function_names used = Ok used'
    /\ forall n, In n used' <->
         In n used
         \/ exists f proto param,
              In f function_names /\ dict_get f prototypes = Some proto
              /\ In param (params proto) /\ param_type param = n
              /\ has_typedef n = true.
Proof.
  induction function_names as [|f fns IH]; intros Hall used; simpl.
  - exists used. split; [reflexivity|]. intros n. split; [tauto|].
    intros [H|(f & _ & _ & [] & _)]; assumption.
  - destruct (proj1 (dict_mem_get f prototypes) (Hall f (or_introl eq_refl)))
      as [proto Hget].
    rewrite Hget.
    destruct (IH (fun g Hg => Hall g (or_intror Hg))
                 (scan_params typedefs (params proto) used))
      as (used' & Hscan & Hin).
    exists used'. split; [assumption|]. intros n.
    rewrite Hin, scan_params_In. split.
    + intros [[H|(p & Hp & Hn & Ht)]|(g & pr & p & Hg & Hpr & Hp & Hn & Ht)].
      * tauto.
      * right. exists f, proto, p. tauto.
      * right. exists g, pr, p. tauto.
    + intros [H|(g & pr & p & [<-|Hg] & Hpr & Hp & Hn & Ht)].
      * tauto.
      * left. right. exists p. rewrite Hget in Hpr. injection Hpr as <-. tauto.
      * right. exists g, pr, p. tauto.
Qed.

(** *** One round of the loop *)

Lemma layer_dependencies_Ok (layer : list nat) :
  (forall x, In x layer -> x < length typedefs) ->
  exists deps,
    layer_dependencies typedefs layer = Ok deps
    /\ forall d, In d deps <->
         exists x t, In x layer /\ nth_error typedefs x = Some t
                     /\ In d (dependencies t).
Proof.
  induction layer as [|x layer IH]; intros Hvalid; simpl.
  - exists []. split; [reflexivity|]. intros d. split; [intros [] | intros (x & t & [] & _)].
  - destruct (nth_error typedefs x) as [t|] eqn:Ex.
    2:{ apply nth_error_None in Ex. specialize (Hvalid x (or_introl eq_refl)). lia. }
    destruct IH as (deps & -> & Hin); [intros; apply Hvalid; now right|].
    exists (dependencies t ++ deps). split; [reflexivity|]. intros d.
    rewrite in_app_iff, Hin. split.
    + intros [H|(y & t' & Hy & Ht' & Hd)]; [exists x, t; tauto | exists y, t'; tauto].
    + intros (y & t' & [<-|Hy] & Ht' & Hd).
      * left. congruence.
      * right. exists y, t'. tauto.
Qed.

Lemma names_to_ids_valid (names : list pystr) (ids : list nat) :
  _names_to_ids names = Ok ids -> forall y, In y ids -> y < length typedefs.
Proof.
  intros H y Hy. apply (omap_In _ _ _ H) in Hy as (d & _ & Hd).
  now apply first_index_valid in Hd.
Qed.

(** What the loop returns is the layers it was given followed by a tower
    on the current layer. *)
Lemma resolve_layers_tower (fuel : nat) :
  forall done current layers,
    (forall x, In x current -> x < length typedefs) ->
    resolve_layers typedefs fuel done current = Ok layers ->
    exists rest, layers = done ++ rest /\ tower typedefs current rest.
Proof.
  induction fuel as [|fuel IH]; intros done current layers Hvalid H; simpl in H.
  - discriminate.
  - destruct (layer_dependencies_Ok current Hvalid) as (deps & Edeps & Hdeps).
    rewrite Edeps in H. simpl in H.
    destruct (set_iter deps) as [|d0 more] eqn:Emore.
    + injection H as <-. exists [current]. split; [reflexivity|].
      apply tower_last. intros x y Hx (t & d & Ht & Hd & _).
      assert (Hin : In d (set_iter deps)).
      { apply set_iter_In, Hdeps. exists x, t. tauto. }
      rewrite Emore in Hin. destruct Hin.
    + destruct (_names_to_ids (d0 :: more)) as [next| |] eqn:Enext;
        try discriminate.
      simpl in H.
      apply IH in H as (rest & -> & Htower);
        [|now apply (names_to_ids_valid _ _ Enext)].
      exists (current :: rest). split; [now rewrite <- app_assoc|].
      apply tower_step with next; [|assumption]. split.
      * intros x y Hx (t & d & Ht & Hd & Hy).
        apply (omap_In _ _ _ Enext). exists d. split; [|assumption].
        rewrite <- Emore. apply set_iter_In, Hdeps. exists x, t. tauto.
      * intros y Hy. apply (omap_In _ _ _ Enext) in Hy as (d & Hd & Hy).
        rewrite <- Emore in Hd. apply set_iter_In, Hdeps in Hd
          as (x & t & Hx & Ht & Hd).
        exists x. split; [assumption|]. exists t, d. tauto.
Qed.

(** The loop ends when every dependency name is defined and dependencies
    go down some rank: [f + 1] rounds do for layers of rank at most [f]. *)
Lemma resolve_layers_returns (rank : nat -> nat) :
  dependencies_defined typedefs ->
  (forall x y, depends_on x y -> rank y < rank x) ->
  forall f done current,
    (forall x, In x current -> x < length typedefs) ->
    (forall x, In x current -> rank x <= f) ->
    exists layers, resolve_layers typedefs (S f) done current = Ok layers.
Proof.
  intros Hdefined Hrank.
  induction f as [|f IH]; intros done current Hvalid Hbound;
    cbn [resolve_layers].
  all: destruct (layer_dependencies_Ok current Hvalid) as (deps & -> & Hdeps).
  all: cbn [obind].
  all: destruct (set_iter deps) as [|d0 more] eqn:Emore; [eauto|].
  all: assert (Hnext : exists next, _names_to_ids (d0 :: more) = Ok next).
  1,3: apply omap_total; intros d Hd; apply has_typedef_found;
       rewrite <- Emore in Hd; apply set_iter_In, Hdeps in Hd
         as (x & t & Hx & Ht & Hd);
       apply Hdefined with t; [now apply nth_error_In with x | assumption].
  all: destruct Hnext as [next Enext]; rewrite Enext; cbn [obind].
  all: assert (Hlower : forall y, In y next -> exists x, In x current /\ rank y < rank x).
  1,3: intros y Hy; apply (omap_In _ _ _ Enext) in Hy as (d & Hd & Hy);
       rewrite <- Emore in Hd; apply set_iter_In, Hdeps in Hd
         as (x & t & Hx & Ht & Hd);
       exists x; split; [assumption|]; apply Hrank; exists t, d; tauto.
  - (* rank 0 has nothing below it *)
    apply omap_Ok in Enext. inversion Enext as [|? y ? ? _ _]; subst.
    destruct (Hlower y (or_introl eq_refl)) as (x & Hx & Hlt).
    specialize (Hbound x Hx). lia.
  - apply IH.
    + now apply (names_to_ids_valid _ _ Enext).
    + intros y Hy. destruct (Hlower y Hy) as (x & Hx & Hlt).
      specialize (Hbound x Hx). lia.
Qed.

(** *** Towers *)

Local Abbreviation emitted layers :=
  (emission_order (subtract_next_layer layers)).

Lemma tower_head (current : list nat) (layers : list (list nat)) :
  tower typedefs current layers -> exists rest, layers = current :: rest.
Proof. intros H. destruct H; eauto. Qed.

Lemma tower_valid (current : list nat) (layers : list (list nat)) :
  tower typedefs current layers ->
  (forall x, In x current -> x < length typedefs) ->
  forall l x, In l layers -> In x l -> x < length typedefs.
Proof.
  induction 1 as [l Hterm | l l' layers [_ Hback] _ IH]; intros Hvalid k x Hk Hx.
  - destruct Hk as [<-|[]]. auto.
  - destruct Hk as [<-|Hk]; [auto|].
    apply IH with k; try assumption.
    intros y Hy. destruct (Hback y Hy) as (z & _ & t & d & _ & _ & Hd).
    now apply first_index_valid in Hd.
Qed.

Lemma tower_needed (function_names : list pystr)
    (current : list nat) (layers : list (list nat)) :
  tower typedefs current layers ->
  (forall x, In x current -> needed function_names x) ->
  forall l x, In l layers -> In x l -> needed function_names x.
Proof.
  induction 1 as [l Hterm | l l' layers [_ Hback] _ IH]; intros Hcur k x Hk Hx.
  - destruct Hk as [<-|[]]. auto.
  - destruct Hk as [<-|Hk]; [auto|].
    apply IH with k; try assumption.
    intros y Hy. destruct (Hback y Hy) as (z & Hz & Hdep).
    apply needed_dep with z; auto.
Qed.

(** A dependency of a member of some layer is a member of some layer. *)
Lemma tower_closed (current : list nat) (layers : list (list nat)) :
  tower typedefs current layers ->
  forall l x y, In l layers -> In x l -> depends_on x y ->
  exists l', In l' layers /\ In y l'.
Proof.
  induction 1 as [l Hterm | l l' layers [Hfwd _] Htower IH];
    intros k x y Hk Hx Hdep.
  - destruct Hk as [<-|[]]. destruct (Hterm x y Hx Hdep).
  - destruct Hk as [<-|Hk].
    + exists l'. split; [|eauto].
      right. destruct (tower_head _ _ Htower) as [rest ->]. now left.
    + destruct (IH k x y Hk Hx Hdep) as (k' & Hk' & Hy).
      exists k'. split; [now right | assumption].
Qed.

(** *** Subtraction and emission *)

Lemma emitted_cons (l l' : list nat) (rest : list (list nat)) :
  emitted (l :: l' :: rest)
  = emitted (l' :: rest) ++ set_iter (filter (fun x => negb (mem_id x l')) l).
Proof.
  unfold emission_order. cbn [subtract_next_layer rev].
  rewrite concat_app. cbn [concat]. now rewrite app_nil_r.
Qed.

Lemma emitted_single (l : list nat) : emitted [l] = l.
Proof. unfold emission_order. cbn. apply app_nil_r. Qed.

Lemma subtracted_In (l l' : list nat) (x : nat) :
  In x (set_iter (filter (fun x => negb (mem_id x l')) l))
  <-> In x l /\ ~ In x l'.
Proof.
  rewrite set_iter_In, filter_In, negb_true_iff, <- (mem_id_In x l').
  destruct (mem_id x l'); intuition congruence.
Qed.

(** Subtraction loses no definition: a member of a layer is emitted, if
    not with its own layer then with a deeper one. *)
Lemma layer_member_emitted (layers : list (list nat)) :
  forall l x, In l layers -> In x l -> In x (emitted layers).
Proof.
  induction layers as [|l0 layers IH]; intros l x Hl Hx; [destruct Hl|].
  destruct layers as [|l1 rest].
  - destruct Hl as [<-|[]]. now rewrite emitted_single.
  - rewrite emitted_cons, in_app_iff. destruct Hl as [<-|Hl].
    + destruct (mem_id x l1) eqn:E.
      * left. apply IH with l1; [now left | now apply mem_id_In].
      * right. apply subtracted_In. split; [assumption|].
        rewrite <- mem_id_In. congruence.
    + left. now apply IH with l.
Qed.

Lemma emitted_layer_member (layers : list (list nat)) :
  forall x, In x (emitted layers) -> exists l, In l layers /\ In x l.
Proof.
  induction layers as [|l0 layers IH]; intros x Hx; [destruct Hx|].
  destruct layers as [|l1 rest].
  - rewrite emitted_single in Hx. exists l0. split; [now left | assumption].
  - rewrite emitted_cons, in_app_iff in Hx. destruct Hx as [Hx|Hx].
    + destruct (IH x Hx) as (l & Hl & Hxl). exists l. split; [now right | assumption].
    + apply subtracted_In in Hx as [Hx _]. exists l0. split; [now left | assumption].
Qed.

(** Every occurrence of a definition comes after an occurrence of each
    definition it depends on. *)
Lemma tower_emitted_in_order (current : list nat) (layers : list (list nat)) :
  tower typedefs current layers ->
  forall before x after y,
    emitted layers = before ++ x :: after -> depends_on x y -> In y before.
Proof.
  induction 1 as [l Hterm | l l' layers [Hfwd _] Htower IH];
    intros before x after y Hsplit Hdep.
  - rewrite emitted_single in Hsplit.
    destruct (Hterm x y); [|assumption].
    rewrite Hsplit. apply in_elt.
  - destruct (tower_head _ _ Htower) as [rest ->].
    rewrite emitted_cons in Hsplit.
    assert (Hdeeper : forall z, In z l -> depends_on z y ->
                        In y (emitted (l' :: rest))).
    { intros z Hz Hzy. apply layer_member_emitted with l'; [now left | eauto]. }
    apply app_eq_app in Hsplit as (mid & [[Hpre Hmid]|[Hpre Hmid]]).
    + (* the occurrence lies at or before the end of the deeper layers *)
      destruct mid as [|m mid].
      * rewrite app_nil_r in Hpre. cbn in Hmid. rewrite <- Hpre.
        apply Hdeeper with x; [|assumption].
        eapply subtracted_In. rewrite <- Hmid. now left.
      * injection Hmid as <- Hafter.
        apply IH with (x := x) (after := mid); assumption.
    + (* the occurrence lies in what is left of layer [l] *)
      rewrite Hpre, in_app_iff. left.
      apply Hdeeper with x; [|assumption].
      eapply subtracted_In. rewrite Hmid. apply in_elt.
Qed.

Lemma scan_functions_keys (function_names : list pystr) :
  forall used used',
    scan_functions typedefs prototypes function_names used = Ok used' ->
    forall f, In f function_names -> exists proto, dict_get f prototypes = Some proto.
Proof.
  induction function_names as [|g fns IH]; intros used used' H f Hf;
    [destruct Hf|].
  cbn in H. destruct (dict_get g prototypes) as [proto|] eqn:Eg;
    try discriminate.
  destruct Hf as [<-|Hf]; [eauto | exact (IH _ _ H f Hf)].
Qed.

Lemma get_typedefs_keys (fuel : nat) (function_names : list pystr)
    (typedef_code : list pystr) :
  _get_typedefs typedefs prototypes fuel function_names = Ok typedef_code ->
  forall f, In f function_names -> exists proto, dict_get f prototypes = Some proto.
Proof.
  unfold _get_typedefs, resolve_ids. intros H.
  destruct (scan_functions typedefs prototypes function_names [])
    as [used| |] eqn:Escan; try discriminate.
  exact (scan_functions_keys _ _ _ Escan).
Qed.

(** *** The resolver as a whole *)

Lemma definitions_Ok (ids : list nat) :
  (forall x, In x ids -> x < length typedefs) ->
  exists tds,
    Forall2 (fun j t => nth_error typedefs j = Some t) ids tds
    /\ omap (definition_of typedefs) ids = Ok (map definition tds).
Proof.
  induction ids as [|j ids IH]; intros Hvalid.
  - exists []. split; [constructor | reflexivity].
  - destruct IH as (tds & Hall & Hdefs); [intros; apply Hvalid; now right|].
    destruct (nth_error typedefs j) as [t|] eqn:Ej.
    2:{ apply nth_error_None in Ej. specialize (Hvalid j (or_introl eq_refl)). lia. }
    exists (t :: tds). split; [now constructor|].
    cbn [omap]. unfold definition_of at 1. rewrite Ej. cbn [obind].
    rewrite Hdefs. reflexivity.
Qed.

Lemma set_iter_nil {A} `{SetIter A} : set_iter (@nil A) = [].
Proof.
  destruct (set_iter (@nil A)) as [|a l] eqn:E; [reflexivity|].
  assert (Hin : In a (set_iter (@nil A))) by (rewrite E; now left).
  apply (proj1 (set_iter_In _ _)) in Hin. destruct Hin.
Qed.

(** Layer 0 is made of the requested definitions. *)
Lemma layer0_Ok (function_names : list pystr) :
  (forall f, In f function_names -> dict_mem f prototypes = true) ->
  exists used layer0,
    scan_functions typedefs prototypes function_names [] = Ok used
    /\ _names_to_ids used = Ok layer0
    /\ forall x, In x layer0 <-> requested function_names x.
Proof.
  intros Hall.
  destruct (scan_functions_Ok function_names Hall []) as (used & Hscan & Hused).
  destruct (omap_total (fun n => first_index n typedefs 0) used) as [layer0 Hids].
  { intros n Hn. apply Hused in Hn as [[]|(f & pr & p & _ & _ & _ & _ & Ht)].
    now apply has_typedef_found. }
  exists used, layer0. split; [assumption|]. split; [assumption|].
  intros x. rewrite (omap_In _ _ _ Hids). split.
  - intros (n & Hn & Hx).
    apply Hused in Hn as [[]|(f & pr & p & Hf & Hpr & Hp & <- & _)].
    exists f, pr, p. tauto.
  - intros (f & pr & p & Hf & Hpr & Hp & Hx).
    exists (param_type p). split; [|assumption].
    apply Hused. right. exists f, pr, p. repeat split; try assumption.
    apply has_typedef_found. eauto.
Qed.

(** Whenever every requested function is in the prototype catalog, every
    dependency name has a definition and the dependencies are acyclic (they
    go down a rank below the number of rounds allowed), the resolver
    returns; the definitions it returns are those needed directly or
    transitively by a parameter of a requested function, and every
    occurrence of a definition X is preceded by an occurrence of each
    definition Y that X lists as a dependency. *)
Lemma typedefs_in_dependency_order
    (rank : nat -> nat) (fuel : nat) (function_names : list pystr) :
  (forall f, In f function_names -> dict_mem f prototypes = true) ->
  dependencies_defined typedefs ->
  (forall x y, depends_on x y -> rank y < rank x) ->
  (forall x, rank x < fuel) ->
  exists ids tds,
    resolve_ids typedefs prototypes fuel function_names = Ok ids
    /\ Forall2 (fun j t => nth_error typedefs j = Some t) ids tds
    /\ _get_typedefs typedefs prototypes fuel function_names
       = Ok (map definition tds)
    /\ (forall x, In x ids <-> needed function_names x)
    /\ (forall before x after y,
          ids = before ++ x :: after -> depends_on x y -> In y before).
Proof.
  intros Hall Hdefined Hrank Hfuel.
  destruct fuel as [|f]; [specialize (Hfuel 0); lia|].
  destruct (layer0_Ok function_names Hall) as (used & layer0 & Hscan & Hids & Hreq).
  assert (Hvalid0 : forall x, In x layer0 -> x < length typedefs)
    by exact (names_to_ids_valid _ _ Hids).
  destruct (resolve_layers_returns rank Hdefined Hrank f [] layer0 Hvalid0)
    as [layers Hlayers].
  { intros x _. specialize (Hfuel x). lia. }
  destruct (resolve_layers_tower _ _ _ _ Hvalid0 Hlayers)
    as (rest & Erest & Htower).
  cbn [app] in Erest. subst rest.
  assert (Hvalid : forall x, In x (emitted layers) -> x < length typedefs).
  { intros x Hx. apply emitted_layer_member in Hx as (l & Hl & Hx).
    exact (tower_valid _ _ Htower Hvalid0 l x Hl Hx). }
  destruct (definitions_Ok _ Hvalid) as (tds & Htds & Hdefs).
  assert (Eids : resolve_ids typedefs prototypes (S f) function_names
                 = Ok (emitted layers)).
  { unfold resolve_ids. rewrite Hscan. cbn [obind]. rewrite Hids. cbn [obind].
    rewrite Hlayers. reflexivity. }
  exists (emitted layers), tds. split; [assumption|]. split; [assumption|].
  split; [unfold _get_typedefs; rewrite Eids; exact Hdefs|]. split.
  - intros x. split.
    + intros Hx. apply emitted_layer_member in Hx as (l & Hl & Hx).
      apply (tower_needed function_names _ _ Htower) with l; try assumption.
      intros z Hz. apply needed_direct. now apply Hreq.
    + intros Hneeded.
      assert (Hlayer : exists l, In l layers /\ In x l).
      { induction Hneeded as [x Hx | x y _ IH Hdep].
        - exists layer0. split; [|now apply Hreq].
          destruct (tower_head _ _ Htower) as [rest ->]. now left.
        - destruct IH as (l & Hl & Hx).
          exact (tower_closed _ _ Htower l x y Hl Hx Hdep). }
      destruct Hlayer as (l & Hl & Hx).
      now apply layer_member_emitted with l.
  - exact (tower_emitted_in_order _ _ Htower).
Qed.

(** *** Parameter types without a definition *)

Lemma scan_known_params (ps : list Param) (used : list pystr) :
  scan_params typedefs (known_params typedefs ps) used
  = scan_params typedefs ps used.
Proof.
  revert used. induction ps as [|p ps IH]; intros used; [reflexivity|].
  unfold known_params in *. cbn [filter scan_params].
  destruct (has_typedef (param_type p)) eqn:E.
  - cbn [scan_params]. rewrite E. apply IH.
  - apply IH.
Qed.

Lemma dict_get_without_unknown (f : pystr) (d : dict) :
  dict_get f (without_unknown_params typedefs d)
  = option_map (fun pr => {| params := known_params typedefs (params pr) |})
               (dict_get f d).
Proof.
  induction d as [|[k v] d IH]; [reflexivity|].
  cbn. destruct (pystr_eqb f k); [reflexivity | exact IH].
Qed.

Lemma scan_without_unknown (function_names : list pystr) (used : list pystr) :
  scan_functions typedefs (without_unknown_params typedefs prototypes)
    function_names used
  = scan_functions typedefs prototypes function_names used.
Proof.
  revert used. induction function_names as [|f fns IH]; intros used;
    [reflexivity|].
  cbn [scan_functions]. rewrite dict_get_without_unknown.
  destruct (dict_get f prototypes) as [pr|]; cbn [option_map params];
    [|reflexivity].
  rewrite scan_known_params. apply IH.
Qed.

(** C6 (amended).  A parameter type name that matches no TypeDefinition is
    treated as "no such auxiliary type" and skipped without any error:
    dependency resolution behaves exactly as if the parameters of such a
    type were not there, and when no parameter type of the requested
    functions has a definition it returns the empty sequence. *)
Theorem unknown_parameter_types_are_skipped
    (fuel : nat) (function_names : list pystr) :
  _get_typedefs typedefs prototypes fuel function_names
  = _get_typedefs typedefs (without_unknown_params typedefs prototypes)
      fuel function_names
  /\ ((forall f, In f function_names -> dict_mem f prototypes = true) ->
      (forall f proto param,
          In f function_names -> dict_get f prototypes = Some proto ->
          In param (params proto) -> has_typedef (param_type param) = false) ->
      _get_typedefs typedefs prototypes (S fuel) function_names = Ok []).
Proof.
  split.
  - unfold _get_typedefs, resolve_ids. now rewrite scan_without_unknown.
  - intros Hall Hunknown.
    destruct (scan_functions_Ok function_names Hall []) as (used & Hscan & Hused).
    assert (used = []) as ->.
    { destruct used as [|n used]; [reflexivity|].
      destruct (proj1 (Hused n) (or_introl eq_refl))
        as [[]|(f & pr & p & Hf & Hpr & Hp & Hn & Ht)].
      rewrite <- Hn, (Hunknown f pr p Hf Hpr Hp) in Ht. discriminate. }
    unfold _get_typedefs, resolve_ids. rewrite Hscan.
    cbn. rewrite set_iter_nil. reflexivity.
Qed.

(** Dependency names enjoy no such treatment: when a requested definition
    lists a name that has no definition, the resolver raises. *)
Lemma undefined_dependency_raises
    (fuel : nat) (function_names : list pystr)
    (x : nat) (t : TypeDefinition) (d : pystr) :
  (forall f, In f function_names -> dict_mem f prototypes = true) ->
  requested function_names x ->
  nth_error typedefs x = Some t ->
  In d (dependencies t) ->
  has_typedef d = false ->
  _get_typedefs typedefs prototypes (S fuel) function_names
  = Raise StopIteration.
Proof.
  intros Hall Hx Ht Hd Hmissing.
  destruct (layer0_Ok function_names Hall)
    as (used & layer0 & Hscan & Hids & Hreq).
  destruct (layer_dependencies_Ok layer0 (names_to_ids_valid _ _ Hids))
    as (deps & Hdeps & Hin).
  assert (Hd' : In d (set_iter deps)).
  { apply set_iter_In, Hin. exists x, t. split; [now apply Hreq | tauto]. }
  unfold _get_typedefs, resolve_ids.
  rewrite Hscan. cbn [obind]. rewrite Hids. cbn [obind resolve_layers].
  rewrite Hdeps. cbn [obind].
  destruct (set_iter deps) as [|d0 more]; [destruct Hd'|].
  replace (_names_to_ids (d0 :: more)) with (@Raise (list nat) StopIteration);
    [reflexivity|].
  symmetry. apply omap_raises.
  - intros n _. apply first_index_cases.
  - exists d. split; [assumption | now apply has_typedef_missing].
Qed.

End WithCatalogs.

End ResolverFacts.

(** *** The resolver on small catalogs *)

Lemma two_layers_defined : Resolver.dependencies_defined Examples.two_layers.
Proof.
  intros t d [<-|[<-|[]]] Hd; cbn in Hd.
  - destruct Hd as [<-|[]]. reflexivity.
  - destruct Hd.
Qed.

Lemma two_layers_ranked (x y : nat) :
  Resolver.depends_on Examples.two_layers x y ->
  Examples.depth_two_layers y < Examples.depth_two_layers x.
Proof.
  intros (t & d & Ht & Hd & Hy).
  destruct x as [|[|x]]; cbn in Ht.
  - injection Ht as <-. destruct Hd as [<-|[]].
    vm_compute in Hy. injection Hy as <-. cbn. lia.
  - injection Ht as <-. destruct Hd.
  - destruct x; discriminate.
Qed.

Lemma typedefs_in_dependency_order_two_layers :
  exists ids tds,
    Resolver.resolve_ids Examples.two_layers Examples.catalog 2
      [py "NtFoo"; py "NtTestAlert"] = Ok ids
    /\ Forall2 (fun j t => nth_error Examples.two_layers j = Some t) ids tds
    /\ Resolver._get_typedefs Examples.two_layers Examples.catalog 2
         [py "NtFoo"; py "NtTestAlert"] = Ok (map definition tds)
    /\ (forall x, In x ids <->
          Resolver.needed Examples.two_layers Examples.catalog
            [py "NtFoo"; py "NtTestAlert"] x)
    /\ (forall before x after y,
          ids = before ++ x :: after ->
          Resolver.depends_on Examples.two_layers x y -> In y before).
Proof.
  apply (ResolverFacts.typedefs_in_dependency_order
           Examples.two_layers Examples.catalog Examples.depth_two_layers 2
           [py "NtFoo"; py "NtTestAlert"]).
  - intros f [<-|[<-|[]]]; reflexivity.
  - exact two_layers_defined.
  - exact two_layers_ranked.
  - intros [|x]; cbn; lia.
Defined.

(** C3 at a failing input: the catalog holds one definition, known under
    the two names [BAR] and [PBAR], and [NtBar] takes a parameter of each
    type.  The resolver removes duplicates by name (line 93), by dependency
    name (line 104) and between consecutive layers (lines 111-113), yet it
    returns this one definition twice. *)
Theorem alias_definition_returned_twice :
  Resolver._get_typedefs [Examples.BAR_def] Examples.catalog 1 [py "NtBar"]
  = Ok [definition Examples.BAR_def; definition Examples.BAR_def].
Proof. vm_compute. reflexivity. Qed.

Lemma unknown_parameter_types_are_skipped_witness :
  Resolver._get_typedefs Examples.two_layers Examples.catalog 1
    [py "NtClose"; py "NtTestAlert"]
  = Ok [].
Proof.
  apply (proj2 (ResolverFacts.unknown_parameter_types_are_skipped
                  Examples.two_layers Examples.catalog 0
                  [py "NtClose"; py "NtTestAlert"])).
  - intros f [<-|[<-|[]]]; reflexivity.
  - intros f proto param [<-|[<-|[]]] Hget; vm_compute in Hget;
      injection Hget as <-; intros Hin; cbn in Hin;
      repeat (destruct Hin as [<-|Hin]; [reflexivity|]); destruct Hin.
Defined.

(** On dependencies that form a cycle the loop of [_get_typedefs] goes
    round for ever: no number of rounds is enough. *)
Lemma cyclic_layers_never_end (fuel : nat) :
  forall done,
    Resolver.resolve_layers Examples.cyclic fuel done [0] = OutOfFuel
    /\ Resolver.resolve_layers Examples.cyclic fuel done [1] = OutOfFuel.
Proof.
  induction fuel as [|fuel IH]; intros done; [split; reflexivity|].
  split.
  - change (Resolver.resolve_layers Examples.cyclic (S fuel) done [0])
      with (Resolver.resolve_layers Examples.cyclic fuel (done ++ [[0]]) [1]).
    apply IH.
  - change (Resolver.resolve_layers Examples.cyclic (S fuel) done [1])
      with (Resolver.resolve_layers Examples.cyclic fuel (done ++ [[1]]) [0]).
    apply IH.
Qed.

Lemma cyclic_dependencies_never_return (fuel : nat) :
  Resolver._get_typedefs Examples.cyclic Examples.catalog fuel [py "NtFoo"]
  = OutOfFuel.
Proof.
  change (Resolver._get_typedefs Examples.cyclic Examples.catalog fuel
            [py "NtFoo"])
    with (obind (obind (Resolver.resolve_layers Examples.cyclic fuel [] [0])
                   (fun layers =>
                      Ok (Resolver.emission_order
                            (Resolver.subtract_next_layer layers))))
            (omap (Resolver.definition_of Examples.cyclic))).
  now rewrite (proj1 (cyclic_layers_never_end fuel [])).
Qed.

(** C6 as stated fails for dependency names: [PFOO] names [FOO], which has
    no definition, and resolution raises [StopIteration]. *)
Lemma dangling_dependency_raises :
  Resolver._get_typedefs Examples.dangling Examples.catalog 2 [py "NtFoo"]
  = Raise StopIteration.
Proof. vm_compute. reflexivity. Qed.

(** ** Encoding *)


Lemma encode_Ok_inv (text data : pystr) :
  encode text = Ok data -> data = text /\ encodable text.
Proof.
  unfold encodable, encode. destruct (existsb _ text); [discriminate|].
  intros H. injection H as <-. now split.
Qed.

Lemma encodable_app (a b : pystr) :
  encodable (a ++ b) <-> encodable a /\ encodable b.
Proof.
  unfold encodable. rewrite existsb_app. apply orb_false_iff.
Qed.




Lemma omap_encode_Ok (l ds : list pystr) :
  omap encode l = Ok ds -> ds = l /\ Forall encodable l.
Proof.
  revert ds. induction l as [|x l IH]; intros ds H; cbn in H.
  - injection H as <-. split; [reflexivity | constructor].
  - destruct (encode x) as [d| |] eqn:Ex; try discriminate. cbn in H.
    destruct (omap encode l) as [ds'| |]; try discriminate.
    injection H as <-. apply encode_Ok_inv in Ex as [-> Hx].
    destruct (IH ds' eq_refl) as [-> Hl]. split; [reflexivity|].
    now constructor.
Qed.

(** ** The session *)

Module SessionFacts.

Import Render Session.

Open Scope session_scope.

Lemma add_ops_nil (s : State) : add_ops s [] = s.
Proof. destruct s. unfold add_ops. cbn. now rewrite app_nil_r. Qed.

Lemma add_ops_app (s : State) (a b : list FileOp) :
  add_ops (add_ops s a) b = add_ops s (a ++ b).
Proof. unfold add_ops. cbn. now rewrite app_assoc. Qed.

Lemma file_op_run (op : FileOp) (s : State) :
  file_op op s = (Ok tt, add_ops s [op]).
Proof. reflexivity. Qed.

(** *** Loops that write one chunk per element *)

Section Loops.

Variables (A : Type) (f : dict -> A -> outcome pystr) (chunk : pystr -> FileOp).
Variable body : A -> M unit.

Hypothesis body_run : forall x s,
  body x s = match f (prototypes s) x with
             | Ok c => (Ok tt, add_ops s [chunk c])
             | Raise e => (Raise e, s)
             | OutOfFuel => (OutOfFuel, s)
             end.



Lemma for_each_Ok (l : list A) (s s' : State) :
  for_each l body s = (Ok tt, s') ->
  exists cs, omap (f (prototypes s)) l = Ok cs
             /\ s' = add_ops s (map chunk cs).
Proof.
  revert s. induction l as [|x l IH]; intros s H.
  - injection H as <-. exists []. now rewrite add_ops_nil.
  - cbn [for_each] in H. unfold bind in H. rewrite body_run in H.
    destruct (f (prototypes s) x) as [c| |] eqn:Ex; try discriminate.
    apply IH in H as (cs & Hcs & ->). cbn in Hcs.
    exists (c :: cs). cbn. rewrite Ex, Hcs. split; [reflexivity|].
    now rewrite add_ops_app.
Qed.

End Loops.

Section WithSession.

Context {platform : Platform}.
Context {set_of_str : SetIter pystr} {set_of_id : SetIter nat}.

Variable env : Env.

(** *** The three files, one at a time *)

Lemma write_c_run (basename : pystr) (s : State) :
  write_c env basename s = (Ok tt, add_ops s (c_ops env basename)).
Proof.
  unfold write_c, bind. rewrite !file_op_run. now rewrite add_ops_app.
Qed.

Lemma write_stub_run (basename x : pystr) (s : State) :
  write_stub env basename x s
  = match asm_code env x with
    | Ok c => (Ok tt, add_ops s [Write (asm_path basename) (c ++ NL)])
    | Raise e => (Raise e, s)
    | OutOfFuel => (OutOfFuel, s)
    end.
Proof.
  unfold write_stub, asm_code, bind, lift.
  destruct (_get_function_asm_code _ _ _ x); reflexivity.
Qed.

Lemma valid_architecture_dec :
  valid_architecture env
  \/ (pystr_eqb (architecture env) x64 = false
      /\ pystr_eqb (architecture env) x86_64 = false).
Proof.
  unfold valid_architecture.
  destruct (pystr_eqb (architecture env) x64) eqn:E64.
  - left. left. now apply pystr_eqb_eq.
  - destruct (pystr_eqb (architecture env) x86_64) eqn:E86.
    + left. right. now apply pystr_eqb_eq.
    + now right.
Qed.

(** Lines 47-53 when the architecture is one of the two. *)
Lemma asm_preamble_run (basename : pystr) (s : State) :
  valid_architecture env ->
  (if pystr_eqb (architecture env) x64
   then file_op (Write (asm_path basename) preamble_x64)
   else if pystr_eqb (architecture env) x86_64
        then file_op (Write (asm_path basename) preamble_x86_64)
        else lift (Raise ValueError_invalid_architecture)) s
  = (Ok tt, add_ops s [Write (asm_path basename) (preamble env)]).
Proof.
  unfold preamble. intros [E|E].
  - rewrite E, pystr_eqb_refl. reflexivity.
  - rewrite E, pystr_eqb_refl. reflexivity.
Qed.


Lemma write_asm_invalid (basename : pystr) (names : list pystr) (s : State) :
  ~ valid_architecture env ->
  write_asm env basename names s
  = (Raise ValueError_invalid_architecture,
     add_ops s [Open (asm_path basename)]).
Proof.
  intros Hinvalid. destruct valid_architecture_dec as [H|[E64 E86]];
    [contradiction|].
  unfold write_asm, bind. rewrite file_op_run, E64, E86. reflexivity.
Qed.

Lemma write_asm_Ok (basename : pystr) (names : list pystr) (s s' : State) :
  write_asm env basename names s = (Ok tt, s') ->
  valid_architecture env
  /\ exists codes,
       omap (asm_code env) names = Ok codes
       /\ s' = add_ops s (asm_ops env basename codes).
Proof.
  intros H. destruct valid_architecture_dec as [Hvalid|[E64 E86]].
  2:{ unfold write_asm, bind in H. rewrite file_op_run, E64, E86 in H.
      discriminate. }
  split; [assumption|].
  unfold write_asm, bind at 1 2 in H.
  rewrite file_op_run, asm_preamble_run in H by assumption.
  unfold bind in H.
  destruct (for_each names (write_stub env basename) _) as [[[]| |] s1] eqn:Eloop;
    try discriminate.
  apply (for_each_Ok _ (fun _ => asm_code env)
           (fun code => Write (asm_path basename) (code ++ NL))
           (write_stub env basename)
           (fun x s => write_stub_run basename x s)) in Eloop
    as (codes & Hcodes & ->).
  rewrite file_op_run, !add_ops_app in H. injection H as <-.
  exists codes. split; [assumption | reflexivity].
Qed.

Lemma write_typedef_run (basename x : pystr) (s : State) :
  write_typedef basename x s
  = match (fun (_ : dict) t => encode t) (prototypes s) x with
    | Ok c => (Ok tt, add_ops s [Write (h_path basename) (c ++ NL ++ NL)])
    | Raise e => (Raise e, s)
    | OutOfFuel => (OutOfFuel, s)
    end.
Proof.
  unfold write_typedef, bind, lift. destruct (encode x); reflexivity.
Qed.


Lemma write_typedefs_Ok (basename : pystr) (typedef_code : list pystr)
    (s s' : State) :
  for_each typedef_code (write_typedef basename) s = (Ok tt, s') ->
  Forall encodable typedef_code
  /\ s' = add_ops s (map (fun t => Write (h_path basename) (t ++ NL ++ NL))
                         typedef_code).
Proof.
  intros H.
  apply (for_each_Ok _ (fun (_ : dict) t => encode t)
           (fun t => Write (h_path basename) (t ++ NL ++ NL))
           (write_typedef basename)
           (fun x s => write_typedef_run basename x s)) in H
    as (cs & Hcs & ->).
  apply omap_encode_Ok in Hcs as [-> Henc]. now split.
Qed.

Lemma write_prototype_run (basename x : pystr) (s : State) :
  write_prototype basename x s
  = match encoded_prototype (prototypes s) x with
    | Ok c => (Ok tt, add_ops s [Write (h_path basename) c])
    | Raise e => (Raise e, s)
    | OutOfFuel => (OutOfFuel, s)
    end.
Proof.
  unfold write_prototype, encoded_prototype, bind, get_prototypes, lift.
  destruct (_get_function_prototype (prototypes s) x) as [sg| |];
    reflexivity.
Qed.

Lemma encodable_line (text : pystr) :
  encodable (text ++ NL ++ NL) <-> encodable text.
Proof.
  rewrite encodable_app. split; [tauto|]. intros H. split; [exact H|].
  reflexivity.
Qed.


Lemma encoded_prototypes_Ok (protos : dict) (names chunks : list pystr) :
  omap (encoded_prototype protos) names = Ok chunks ->
  exists signatures,
    omap (_get_function_prototype protos) names = Ok signatures
    /\ Forall encodable signatures
    /\ chunks = map (fun sg => sg ++ NL ++ NL) signatures.
Proof.
  revert chunks. induction names as [|x names IH]; intros chunks H; cbn in H.
  - injection H as <-. exists []. repeat split. constructor.
  - unfold encoded_prototype at 1 in H.
    destruct (_get_function_prototype protos x) as [sg| |] eqn:Ex;
      try discriminate. cbn [obind] in H.
    destruct (encode (sg ++ NL ++ NL)) as [data| |] eqn:Edata;
      try discriminate. cbn [obind] in H.
    destruct (omap (encoded_prototype protos) names) as [chunks'| |];
      try discriminate.
    injection H as <-.
    destruct (IH chunks' eq_refl) as (sigs & Hsigs & Henc & ->).
    apply encode_Ok_inv in Edata as [-> Hsg].
    apply (proj1 (encodable_line sg)) in Hsg.
    exists (sg :: sigs). cbn [omap]. rewrite Ex, Hsigs. cbn [obind].
    split; [reflexivity|]. split; [now constructor | reflexivity].
Qed.


Lemma write_header_encodes (fuel : nat) (basename : pystr)
    (names : list pystr) (s s' : State) :
  write_header env fuel basename names s = (Ok tt, s') ->
  exists typedef_code signatures,
    Resolver._get_typedefs (typedefs env) (prototypes s) fuel names
    = Ok typedef_code
    /\ omap (_get_function_prototype (prototypes s)) names = Ok signatures
    /\ s' = add_ops s (h_ops env basename typedef_code signatures)
    /\ Forall encodable typedef_code
    /\ Forall encodable signatures.
Proof.
  intros H. unfold write_header, bind at 1 2 3 4 in H.
  rewrite !file_op_run in H. cbn [get_prototypes prototypes add_ops lift] in H.
  destruct (Resolver._get_typedefs (typedefs env) (prototypes s) fuel names)
    as [tds| |] eqn:Htds; try discriminate.
  unfold bind at 1 in H.
  destruct (for_each tds (write_typedef basename) _) as [[[]| |] s0] eqn:Etds;
    try discriminate.
  apply write_typedefs_Ok in Etds as [Htenc ->].
  unfold bind in H.
  destruct (for_each names (write_prototype basename) _) as [[[]| |] s1] eqn:Eloop;
    try discriminate.
  apply (for_each_Ok _ encoded_prototype
           (fun chunk => Write (h_path basename) chunk)
           (write_prototype basename)
           (fun x s => write_prototype_run basename x s)) in Eloop
    as (chunks & Hchunks & ->).
  cbn [prototypes add_ops] in Hchunks.
  apply encoded_prototypes_Ok in Hchunks as (sigs & Hsigs & Hsenc & ->).
  rewrite file_op_run, !add_ops_app, map_map in H. injection H as <-.
  exists tds, sigs. repeat split; assumption.
Qed.

Lemma write_header_Ok (fuel : nat) (basename : pystr) (names : list pystr)
    (s s' : State) :
  write_header env fuel basename names s = (Ok tt, s') ->
  exists typedef_code signatures,
    Resolver._get_typedefs (typedefs env) (prototypes s) fuel names
    = Ok typedef_code
    /\ omap (_get_function_prototype (prototypes s)) names = Ok signatures
    /\ s' = add_ops s (h_ops env basename typedef_code signatures).
Proof.
  intros H.
  apply write_header_encodes in H as (tds & sigs & Htds & Hsigs & -> & _).
  exists tds, sigs. repeat split; assumption.
Qed.

(** *** Selection and prefix change *)

Lemma select_functions_state (function_names : list pystr) (s s1 : State)
    (r : outcome (list pystr)) :
  select_functions function_names s = (r, s1) -> s1 = s.
Proof.
  unfold select_functions, bind, get_prototypes.
  destruct function_names as [|f fns]; [intros H; now injection H|].
  destruct (existsb _ _); intros H; now injection H.
Qed.

Lemma select_functions_unknown (function_names : list pystr) (s : State) :
  (exists f, In f function_names /\ dict_mem f (prototypes s) = false) ->
  select_functions function_names s
  = (Raise ValueError_prototypes_unavailable, s).
Proof.
  intros (f & Hin & Hf). unfold select_functions, bind, get_prototypes.
  destruct function_names as [|g fns]; [destruct Hin|].
  replace (existsb _ (g :: fns)) with true; [reflexivity|].
  symmetry. apply existsb_exists. exists f. split; [assumption|].
  now rewrite Hf.
Qed.

Lemma select_functions_known (function_names : list pystr) (s : State) :
  (forall f, In f function_names -> dict_mem f (prototypes s) = true) ->
  select_functions function_names s
  = (Ok (match function_names with
         | [] => dict_keys (prototypes s)
         | _ :: _ => function_names
         end), s).
Proof.
  intros Hall. unfold select_functions, bind, get_prototypes.
  destruct function_names as [|g fns]; [reflexivity|].
  replace (existsb _ (g :: fns)) with false; [reflexivity|].
  symmetry. apply not_true_is_false. intros H.
  apply existsb_exists in H as (f & Hin & Hf).
  rewrite (Hall f Hin) in Hf. discriminate.
Qed.

Lemma rename_functions_files (function_names : list pystr) :
  forall acc s r s1,
    rename_functions env function_names acc s = (r, s1) -> files s1 = files s.
Proof.
  induction function_names as [|f fns IH]; intros acc s r s1 H.
  - now injection H as _ <-.
  - cbn [rename_functions] in H. unfold bind at 1 in H.
    destruct (pystr_eqb (replace1 Nt (function_prefix env) f) f).
    + cbn in H. now apply IH in H.
    + unfold bind at 1 in H. unfold get_prototypes in H.
      destruct (dict_get f (prototypes s)) as [v|].
      * cbn in H. now apply IH in H.
      * cbn in H. now injection H as _ <-.
Qed.

Lemma change_prefix_files (function_names : list pystr) (s s1 : State)
    (r : outcome (list pystr)) :
  change_prefix env function_names s = (r, s1) -> files s1 = files s.
Proof.
  unfold change_prefix. destruct (pystr_eqb (function_prefix env) Nt).
  - intros H. now injection H as _ <-.
  - apply rename_functions_files.
Qed.

(** *** The session as a whole *)

Lemma prepare_files (function_names : list pystr) (s s1 : State)
    (r : outcome (list pystr)) :
  prepare env function_names s = (r, s1) -> files s1 = files s.
Proof.
  unfold prepare, bind.
  destruct (select_functions function_names s) as [[sel| |] s0] eqn:Esel;
    apply select_functions_state in Esel as ->.
  - apply change_prefix_files.
  - intros H. now injection H as _ <-.
  - intros H. now injection H as _ <-.
Qed.

Lemma generate_prepare (fuel : nat) (function_names : list pystr)
    (basename : pystr) (s : State) :
  generate env fuel function_names basename s
  = match prepare env function_names s with
    | (Ok names, s1) =>
        (write_c env basename ;;
         write_asm env basename names ;;
         write_header env fuel basename names) s1
    | (Raise e, s1) => (Raise e, s1)
    | (OutOfFuel, s1) => (OutOfFuel, s1)
    end.
Proof.
  unfold generate, prepare, bind.
  destruct (select_functions function_names s) as [[sel| |] s0]; try reflexivity.
Qed.


Lemma generate_Ok (fuel : nat) (function_names : list pystr)
    (basename : pystr) (s s' : State) :
  generate env fuel function_names basename s = (Ok tt, s') ->
  exists names s1 codes typedef_code signatures,
    prepare env function_names s = (Ok names, s1)
    /\ valid_architecture env
    /\ omap (asm_code env) names = Ok codes
    /\ Resolver._get_typedefs (typedefs env) (prototypes s1) fuel names
       = Ok typedef_code
    /\ omap (_get_function_prototype (prototypes s1)) names = Ok signatures
    /\ s' = add_ops s1 (c_ops env basename ++ asm_ops env basename codes
                        ++ h_ops env basename typedef_code signatures).
Proof.
  rewrite generate_prepare.
  destruct (prepare env function_names s) as [[names| |] s1]; try discriminate.
  unfold bind. rewrite write_c_run.
  destruct (write_asm env basename names _) as [[[]| |] s2] eqn:Easm;
    try discriminate.
  apply write_asm_Ok in Easm as (Hvalid & codes & Hcodes & ->).
  intros H. apply write_header_Ok in H as (tds & sigs & Htds & Hsigs & ->).
  exists names, s1, codes, tds, sigs.
  rewrite !add_ops_app. repeat split; assumption.
Qed.

(** *** Failures *)

(** C5.  When the requested-function list contains a name that is not a
    key of the Prototype Catalog, [generate] raises [ValueError] and leaves
    the state as it found it: no file is opened or written, and the catalog
    is untouched. *)
Theorem unknown_function_fails_before_any_write
    (fuel : nat) (function_names : list pystr) (basename : pystr) (s : State) :
  (exists f, In f function_names /\ dict_mem f (prototypes s) = false) ->
  generate env fuel function_names basename s
  = (Raise ValueError_prototypes_unavailable, s).
Proof.
  intros Hunknown. rewrite generate_prepare. unfold prepare, bind.
  now rewrite select_functions_unknown.
Qed.

(** With an architecture that is neither [x64] nor [x86_64] the session
    ends in [ValueError] once the C file is written and the assembly file
    opened. *)
Lemma invalid_architecture_run
    (fuel : nat) (function_names names : list pystr) (basename : pystr)
    (s s1 : State) :
  prepare env function_names s = (Ok names, s1) ->
  ~ valid_architecture env ->
  generate env fuel function_names basename s
  = (Raise ValueError_invalid_architecture,
     add_ops s1 (c_ops env basename ++ [Open (asm_path basename)])).
Proof.
  intros Hprep Hinvalid. rewrite generate_prepare, Hprep. unfold bind.
  rewrite write_c_run, write_asm_invalid by assumption.
  now rewrite add_ops_app.
Qed.

(** *** The order of the files *)

Lemma opened_app (a b : list FileOp) : opened (a ++ b) = opened a ++ opened b.
Proof.
  induction a as [|[p|p d] a IH]; cbn; [reflexivity | now rewrite IH | exact IH].
Qed.

Lemma opened_writes (path : pystr) (chunks : list pystr) :
  opened (map (Write path) chunks) = [].
Proof. induction chunks as [|c cs IH]; [reflexivity | exact IH]. Qed.

(** C7 (amended).  In every successful generation session the three
    artifacts are written in the sequence: C file first, then assembly
    file, then header file; each file is opened once and receives all its
    writes before the next one is opened. *)
Theorem files_written_c_then_asm_then_header
    (fuel : nat) (function_names : list pystr) (basename : pystr)
    (s s' : State) :
  generate env fuel function_names basename s = (Ok tt, s') ->
  (exists c_chunks asm_chunks h_chunks,
      files s'
      = files s
        ++ (Open (c_path basename) :: map (Write (c_path basename)) c_chunks)
        ++ (Open (asm_path basename)
              :: map (Write (asm_path basename)) asm_chunks)
        ++ (Open (h_path basename) :: map (Write (h_path basename)) h_chunks))
  /\ opened (files s')
     = opened (files s) ++ [c_path basename; asm_path basename; h_path basename].
Proof.
  intros H.
  apply generate_Ok in H
    as (names & s1 & codes & tds & sigs & Hprep & _ & _ & _ & _ & ->).
  apply prepare_files in Hprep.
  assert (Hshape :
    files (add_ops s1 (c_ops env basename ++ asm_ops env basename codes
                       ++ h_ops env basename tds sigs))
    = files s
      ++ (Open (c_path basename)
            :: map (Write (c_path basename))
                 [replace1 (py "<BASENAME>") (os_path_basename basename)
                    (base_c env)])
      ++ (Open (asm_path basename)
            :: map (Write (asm_path basename))
                 (preamble env :: map (fun code => code ++ NL) codes
                               ++ [py "END"]))
      ++ (Open (h_path basename)
            :: map (Write (h_path basename))
                 (replace1 (py "<SEED_VALUE>")
                    (py "0x" ++ format_08X (seed env)) (base_h env)
                  :: map (fun t => t ++ NL ++ NL) tds
                  ++ map (fun sg => sg ++ NL ++ NL) sigs
                  ++ [py "#endif" ++ NL]))).
  { cbn [add_ops files]. rewrite Hprep. unfold c_ops, asm_ops, h_ops.
    cbn [map app]. rewrite !map_app, !map_map. reflexivity. }
  split.
  - eexists _, _, _. exact Hshape.
  - rewrite Hshape, !opened_app. cbn [opened].
    now rewrite !opened_writes.
Qed.

(** *** Header and assembly name the same functions *)

Lemma asm_code_is_stub (name code : pystr) :
  valid_architecture env ->
  asm_code env name = Ok code -> is_stub_of name (code ++ NL).
Proof.
  unfold asm_code, _get_function_asm_code. intros Hvalid H.
  destruct (Hasher._get_function_hash _ _ name) as [h| |]; try discriminate.
  cbn [obind] in H. destruct Hvalid as [E|E]; rewrite E in H.
  - rewrite pystr_eqb_refl in H. injection H as <-.
    unfold asm_x64, is_stub_of. eexists.
    rewrite <- !app_assoc. reflexivity.
  - change (pystr_eqb x86_64 x64) with false in H.
    rewrite pystr_eqb_refl in H. injection H as <-.
    unfold asm_x86_64, is_stub_of. eexists.
    rewrite <- !app_assoc. reflexivity.
Qed.

Lemma prototype_is_prototype (protos : dict) (name signature : pystr) :
  _get_function_prototype protos name = Ok signature ->
  is_prototype_of name (signature ++ NL ++ NL).
Proof.
  unfold _get_function_prototype, is_prototype_of.
  generalize (py "EXTERN_C NTSTATUS ") (py "(") (py ");"). intros p q r H.
  destruct (dict_get name protos) as [proto|]; try discriminate.
  injection H as <-.
  destruct (params proto); eexists; rewrite <- !app_assoc; reflexivity.
Qed.

Lemma Forall2_map_r {A B C} (R : A -> C -> Prop) (g : B -> C)
    (l : list A) (l' : list B) :
  Forall2 (fun a b => R a (g b)) l l' -> Forall2 R l (map g l').
Proof. induction 1; cbn; constructor; assumption. Qed.

Lemma Forall2_impl {A B} (R R' : A -> B -> Prop) (l : list A) (l' : list B) :
  (forall a b, R a b -> R' a b) -> Forall2 R l l' -> Forall2 R' l l'.
Proof. intros HR. induction 1; constructor; auto. Qed.

(** C9.  In every successful session the function list that selection and
    prefix change yield names both files: the chunks written to the assembly
    file between the preamble and [END] are the stubs of these names, one
    for each, in this order, and the chunks written to the header after the
    typedefs the resolver returns for these names and before [#endif] are the
    prototypes of these names, one for each, in this order. *)
Theorem header_prototypes_match_asm_stubs
    (fuel : nat) (function_names : list pystr) (basename : pystr)
    (s s' : State) :
  generate env fuel function_names basename s = (Ok tt, s') ->
  exists names s1 typedef_code stubs prototype_chunks,
    prepare env function_names s = (Ok names, s1)
    /\ Resolver._get_typedefs (typedefs env) (prototypes s1) fuel names
       = Ok typedef_code
    /\ files s'
       = files s
         ++ c_ops env basename
         ++ ([Open (asm_path basename); Write (asm_path basename) (preamble env)]
             ++ map (Write (asm_path basename)) stubs
             ++ [Write (asm_path basename) (py "END")])
         ++ ([Open (h_path basename);
              Write (h_path basename)
                (replace1 (py "<SEED_VALUE>") (py "0x" ++ format_08X (seed env))
                   (base_h env))]
             ++ map (fun t => Write (h_path basename) (t ++ NL ++ NL))
                    typedef_code
             ++ map (Write (h_path basename)) prototype_chunks
             ++ [Write (h_path basename) (py "#endif" ++ NL)])
    /\ Forall2 is_stub_of names stubs
    /\ Forall2 (fun n stub => exists code,
                  asm_code env n = Ok code /\ stub = code ++ NL)
         names stubs
    /\ Forall2 is_prototype_of names prototype_chunks
    /\ Forall2 (fun n chunk => exists signature,
                  _get_function_prototype (prototypes s1) n = Ok signature
                  /\ chunk = signature ++ NL ++ NL)
         names prototype_chunks.
Proof.
  intros H.
  apply generate_Ok in H
    as (names & s1 & codes & tds & sigs & Hprep & Hvalid & Hcodes & Htds & Hsigs & ->).
  exists names, s1, tds, (map (fun code => code ++ NL) codes),
         (map (fun sg => sg ++ NL ++ NL) sigs).
  apply omap_Ok in Hcodes, Hsigs.
  split; [exact Hprep|]. split; [exact Htds|]. apply prepare_files in Hprep.
  split; [|split; [|split; [|split]]].
  - cbn [add_ops files]. rewrite Hprep. unfold asm_ops, h_ops.
    rewrite !map_map. reflexivity.
  - apply Forall2_map_r. revert Hcodes. apply Forall2_impl. intros n c.
    now apply asm_code_is_stub.
  - apply Forall2_map_r. revert Hcodes. apply Forall2_impl. intros n c Hc.
    exists c. now split.
  - apply Forall2_map_r. revert Hsigs. apply Forall2_impl. intros n sg.
    apply prototype_is_prototype.
  - apply Forall2_map_r. revert Hsigs. apply Forall2_impl. intros n sg Hsg.
    exists sg. now split.
Qed.

(** *** The prefix change *)

Lemma rename_functions_without_Nt (function_names : list pystr) :
  Forall (fun n => contains Nt n = false) function_names ->
  forall acc s,
    rename_functions env function_names acc s = (Ok (acc ++ function_names), s).
Proof.
  induction 1 as [|f fns Hf _ IH]; intros acc s; cbn [rename_functions].
  - cbn. now rewrite app_nil_r.
  - rewrite (replace1_absent _ _ _ Hf), pystr_eqb_refl.
    unfold bind. cbn [ret]. rewrite IH, <- app_assoc. reflexivity.
Qed.

(** C8 (amended).  Rewriting with the canonical prefix is a no-op: catalog
    and function names are unchanged.  Rewriting a second time with the same
    non-canonical prefix changes nothing more, provided no name of the
    once-rewritten function list contains [Nt] any longer. *)
Theorem prefix_change_twice
    (function_names : list pystr) (s : State) :
  (function_prefix env = Nt ->
   change_prefix env function_names s = (Ok function_names, s))
  /\ (forall names1 s1,
        change_prefix env function_names s = (Ok names1, s1) ->
        Forall (fun n => contains Nt n = false) names1 ->
        change_prefix env names1 s1 = (Ok names1, s1)).
Proof.
  split.
  - intros E. unfold change_prefix. now rewrite E, pystr_eqb_refl.
  - intros names1 s1 _ Hclean. unfold change_prefix.
    destruct (pystr_eqb (function_prefix env) Nt); [reflexivity|].
    now rewrite rename_functions_without_Nt.
Qed.

(** On pairwise distinct names that are keys of the catalog the loop
    raises no [KeyError]. *)
Lemma rename_functions_distinct (function_names : list pystr) :
  forall acc s,
    NoDup function_names ->
    (forall f, In f function_names -> dict_mem f (prototypes s) = true) ->
    exists s1,
      rename_functions env function_names acc s
      = (Ok (acc ++ map (replace1 Nt (function_prefix env)) function_names), s1).
Proof.
  induction function_names as [|f fns IH]; intros acc s Hnodup Hkeys.
  - exists s. cbn. now rewrite app_nil_r.
  - inversion Hnodup as [|? ? Hfresh Hnodup']; subst.
    cbn [rename_functions map]. unfold bind at 1.
    destruct (pystr_eqb (replace1 Nt (function_prefix env) f) f).
    + cbn [ret].
      destruct (IH (acc ++ [replace1 Nt (function_prefix env) f]) s Hnodup')
        as [s1 Hs1]; [intros; apply Hkeys; now right|].
      exists s1. now rewrite Hs1, <- app_assoc.
    + unfold bind at 1. unfold get_prototypes.
      destruct (proj1 (dict_mem_get f (prototypes s))
                  (Hkeys f (or_introl eq_refl))) as [v Hv].
      rewrite Hv. cbn [set_prototypes].
      match goal with
      | |- context [rename_functions env fns ?a ?st] =>
          destruct (IH a st Hnodup') as [s1 Hs1]
      end.
      { intros g Hg. cbn [prototypes].
        apply dict_mem_del_keeps; [|intros ->; contradiction].
        apply dict_mem_set_keeps. apply Hkeys. now right. }
      exists s1. now rewrite Hs1, <- app_assoc.
Qed.

Lemma prepare_empty (s : State) :
  NoDup (dict_keys (prototypes s)) ->
  exists s1,
    prepare env [] s
    = (Ok (map (replace1 Nt (function_prefix env)) (dict_keys (prototypes s))),
       s1)
    /\ (function_prefix env = Nt -> s1 = s).
Proof.
  intros Hnodup. unfold prepare, bind.
  rewrite select_functions_known by (intros f []).
  unfold change_prefix.
  destruct (pystr_eqb (function_prefix env) Nt) eqn:E.
  - apply pystr_eqb_eq in E. exists s. rewrite E, map_replace1_same.
    split; reflexivity.
  - destruct (rename_functions_distinct (dict_keys (prototypes s)) [] s Hnodup)
      as [s1 Hs1]; [intros f Hf; now apply dict_mem_keys|].
    exists s1. split; [exact Hs1|].
    intros E'. rewrite E', pystr_eqb_refl in E. discriminate.
Qed.


End WithSession.

End SessionFacts.

(** *** Sessions on the small catalog *)

Import Posix.

(** C1 at a failing input: with the architecture token [arm] the session
    ends in the configuration error, but only after [syscalls.c] has been
    written in full and [syscallsstubs.asm] has been created empty. *)
Theorem invalid_architecture_leaves_files :
  Examples.run "arm" "Nt" [py "NtClose"]
  = (Raise ValueError_invalid_architecture,
     Session.add_ops Examples.fresh
       [Open (py "syscalls.c");
        Write (py "syscalls.c") (py "#include syscalls.h");
        Open (py "syscallsstubs.asm")]).
Proof. vm_compute. reflexivity. Qed.

Lemma unknown_function_fails_before_any_write_witness :
  Examples.run "x64" "Nt" [py "NtClose"; py "NtOpenProcess"]
  = (Raise ValueError_prototypes_unavailable, Examples.fresh).
Proof.
  apply (SessionFacts.unknown_function_fails_before_any_write
           (Examples.session "x64" "Nt") 2
           [py "NtClose"; py "NtOpenProcess"] (py "syscalls") Examples.fresh).
  exists (py "NtOpenProcess"). split; [right; left|]; reflexivity.
Defined.

(** C7 as stated fails: in a successful session the header is the last
    file opened, not the first. *)
Lemma header_is_written_last :
  fst (Examples.run "x64" "Nt" [py "NtFoo"; py "NtTestAlert"]) = Ok tt
  /\ Session.opened
       (files (snd (Examples.run "x64" "Nt" [py "NtFoo"; py "NtTestAlert"])))
     = [py "syscalls.c"; py "syscallsstubs.asm"; py "syscalls.h"]
  /\ Session.opened
       (files (snd (Examples.run "x64" "Nt" [py "NtFoo"; py "NtTestAlert"])))
     <> [py "syscalls.h"; py "syscalls.c"; py "syscallsstubs.asm"].
Proof.
  vm_compute. repeat split. intros H. discriminate H.
Qed.

Lemma files_written_c_then_asm_then_header_witness :
  (exists c_chunks asm_chunks h_chunks,
      files (snd (Examples.run "x64" "Nt" [py "NtFoo"; py "NtTestAlert"]))
      = files Examples.fresh
        ++ (Open (Session.c_path (py "syscalls"))
              :: map (Write (Session.c_path (py "syscalls"))) c_chunks)
        ++ (Open (Session.asm_path (py "syscalls"))
              :: map (Write (Session.asm_path (py "syscalls"))) asm_chunks)
        ++ (Open (Session.h_path (py "syscalls"))
              :: map (Write (Session.h_path (py "syscalls"))) h_chunks))
  /\ Session.opened
       (files (snd (Examples.run "x64" "Nt" [py "NtFoo"; py "NtTestAlert"])))
     = Session.opened (files Examples.fresh)
       ++ [Session.c_path (py "syscalls"); Session.asm_path (py "syscalls");
           Session.h_path (py "syscalls")].
Proof.
  apply (SessionFacts.files_written_c_then_asm_then_header
           (Examples.session "x64" "Nt") 2 [py "NtFoo"; py "NtTestAlert"]
           (py "syscalls") Examples.fresh).
  vm_compute. reflexivity.
Defined.

(** C8 as stated fails: with the prefix [MyNt] the first pass turns
    [NtClose] into [MyNtClose], and a second pass turns that into
    [MyMyNtClose]. *)
Lemma prefix_change_twice_differs :
  exists names1 s1,
    Session.change_prefix (Examples.session "x64" "MyNt") [py "NtClose"]
      Examples.fresh = (Ok names1, s1)
    /\ Session.change_prefix (Examples.session "x64" "MyNt") names1 s1
       = (Ok [py "MyMyNtClose"],
          {| prototypes :=
               [(py "NtFoo", {| params := [Examples.param_of "Foo" "PFOO";
                                           Examples.param_of "Count" "ULONG"] |});
                (py "NtBar", {| params := [Examples.param_of "Bar" "BAR";
                                           Examples.param_of "Out" "PBAR"] |});
                (py "NtTestAlert", {| params := [] |});
                (py "MyMyNtClose",
                 {| params := [Examples.param_of "Handle" "HANDLE"] |})];
             files := [] |})
    /\ Session.change_prefix (Examples.session "x64" "MyNt") names1 s1
       <> (Ok names1, s1).
Proof.
  eexists _, _. split; [vm_compute; reflexivity|].
  split; [vm_compute; reflexivity|].
  vm_compute. intros H. discriminate H.
Qed.

Lemma prefix_change_twice_witness :
  Session.change_prefix (Examples.session "x64" "Zw")
    [py "ZwClose"; py "ZwFoo"]
    (snd (Session.change_prefix (Examples.session "x64" "Zw")
            [py "NtClose"; py "NtFoo"] Examples.fresh))
  = (Ok [py "ZwClose"; py "ZwFoo"],
     snd (Session.change_prefix (Examples.session "x64" "Zw")
            [py "NtClose"; py "NtFoo"] Examples.fresh)).
Proof.
  apply (proj2 (SessionFacts.prefix_change_twice
                  (Examples.session "x64" "Zw") [py "NtClose"; py "NtFoo"]
                  Examples.fresh)).
  - vm_compute. reflexivity.
  - repeat constructor.
Defined.

Lemma header_prototypes_match_asm_stubs_witness :
  exists names s1 typedef_code stubs prototype_chunks,
    Session.prepare (Examples.session "x86_64" "Zw")
      [py "NtFoo"; py "NtTestAlert"] Examples.fresh
    = (Ok names, s1)
    /\ Resolver._get_typedefs (typedefs (Examples.session "x86_64" "Zw"))
         (prototypes s1) 2 names
       = Ok typedef_code
    /\ files (snd (Examples.run "x86_64" "Zw" [py "NtFoo"; py "NtTestAlert"]))
       = files Examples.fresh
         ++ Session.c_ops (Examples.session "x86_64" "Zw") (py "syscalls")
         ++ ([Open (Session.asm_path (py "syscalls"));
              Write (Session.asm_path (py "syscalls"))
                (Session.preamble (Examples.session "x86_64" "Zw"))]
             ++ map (Write (Session.asm_path (py "syscalls"))) stubs
             ++ [Write (Session.asm_path (py "syscalls")) (py "END")])
         ++ ([Open (Session.h_path (py "syscalls"));
              Write (Session.h_path (py "syscalls"))
                (replace1 (py "<SEED_VALUE>")
                   (py "0x" ++ Render.format_08X
                                 (seed (Examples.session "x86_64" "Zw")))
                   (base_h (Examples.session "x86_64" "Zw")))]
             ++ map (fun t => Write (Session.h_path (py "syscalls"))
                                (t ++ NL ++ NL))
                    typedef_code
             ++ map (Write (Session.h_path (py "syscalls"))) prototype_chunks
             ++ [Write (Session.h_path (py "syscalls")) (py "#endif" ++ NL)])
    /\ Forall2 Render.is_stub_of names stubs
    /\ Forall2 (fun n stub => exists code,
                  Session.asm_code (Examples.session "x86_64" "Zw") n = Ok code
                  /\ stub = code ++ NL)
         names stubs
    /\ Forall2 Render.is_prototype_of names prototype_chunks
    /\ Forall2 (fun n chunk => exists signature,
                  Render._get_function_prototype (prototypes s1) n
                  = Ok signature
                  /\ chunk = signature ++ NL ++ NL)
         names prototype_chunks.
Proof.
  apply (SessionFacts.header_prototypes_match_asm_stubs
           (Examples.session "x86_64" "Zw") 2 [py "NtFoo"; py "NtTestAlert"]
           (py "syscalls") Examples.fresh).
  vm_compute. reflexivity.
Defined.

(** * Further properties of the code *)

(** ** The name hasher, continued *)

Module HasherMore.

Import Hasher.
Open Scope Z_scope.

(** *** Which names can be hashed *)

Lemma unpack_H_Ok (c0 c1 : N) (u : Z) :
  unpack_H [c0; c1] = Ok u -> (c0 < 128)%N /\ (c1 < 128)%N.
Proof.
  unfold unpack_H. destruct (existsb is_surrogate [c0; c1]); [discriminate|].
  destruct (N.ltb c0 128) eqn:E0; destruct (N.ltb c1 128) eqn:E1;
    try discriminate.
  intros _. split; now apply N.ltb_lt.
Qed.

Lemma hash_loop_Ok_ascii (name : pystr) :
  forall hash h,
    hash_loop (segments (name ++ NUL)) hash = Ok h -> ascii_only name.
Proof.
  induction name as [|c s IH]; intros hash h H; [constructor|].
  cbn [app] in H. rewrite HasherFacts.segments_cons in H.
  assert (Es : exists c1 rest, s ++ NUL = c1 :: rest).
  { destruct s as [|c1 s']; unfold NUL; cbn; eauto. }
  destruct Es as (c1 & rest & Es). rewrite Es in H at 1.
  cbn [app hash_loop] in H.
  destruct (unpack_H [c; c1]) as [u| |] eqn:Eu; try discriminate.
  cbn [obind] in H. apply unpack_H_Ok in Eu as [Hc _].
  constructor; [assumption|]. now apply IH in H.
Qed.

(** The hash is defined exactly for the names that are ASCII once the
    prefix has been replaced: any other character makes [struct.unpack] (or
    [encode]) raise. *)
Theorem hash_defined_iff_ascii
    (seed : Z) (function_prefix function_name : pystr) :
  (exists h, _get_function_hash seed function_prefix function_name = Ok h)
  <-> ascii_only (replace1 function_prefix Zw function_name).
Proof.
  unfold _get_function_hash. split.
  - intros [h H]. now apply hash_loop_Ok_ascii in H.
  - intros Hascii. rewrite HasherFacts.hash_loop_overlapping; [eauto|].
    apply Forall_app. split; [assumption | repeat constructor].
Qed.

(** *** The prefix does not enter the hash *)

Lemma startswith_app (p s : pystr) : startswith p (p ++ s) = true.
Proof.
  induction p as [|a p IH]; [reflexivity|].
  cbn. now rewrite N.eqb_refl, IH.
Qed.

Lemma skipn_app_length (p s : pystr) : skipn (length p) (p ++ s) = s.
Proof. induction p as [|a p IH]; [reflexivity | exact IH]. Qed.

Lemma replace1_at_start (old new rest : pystr) :
  replace1 old new (old ++ rest) = new ++ rest.
Proof.
  destruct (old ++ rest) as [|c s] eqn:E; cbn [replace1];
    rewrite <- E, startswith_app, skipn_app_length; reflexivity.
Qed.

(** A function whose name starts with [Nt] keeps its hash under every
    prefix: the renamed function, hashed under the new prefix, gets the hash
    the original name gets under [Nt]. *)
Theorem hash_unchanged_by_prefix (seed : Z) (function_prefix rest : pystr) :
  _get_function_hash seed function_prefix
    (replace1 (py "Nt") function_prefix (py "Nt" ++ rest))
  = _get_function_hash seed (py "Nt") (py "Nt" ++ rest).
Proof.
  unfold _get_function_hash.
  now rewrite !replace1_at_start.
Qed.

(** *** How large the hash gets *)

Lemma land_mask32_range (v : Z) : 0 <= Z.land v mask32 < 2 ^ 32.
Proof.
  unfold mask32. change (2 ^ 32 - 1) with (Z.ones 32).
  rewrite Z.land_ones by lia. apply Z.mod_pos_bound. lia.
Qed.

(** Whatever it is given, [ror8] returns a 32-bit value. *)
Lemma ror8_range (v : Z) : 0 <= ror8 v < 2 ^ 32.
Proof.
  unfold ror8. apply HasherFacts.lor_range; [lia | apply land_mask32_range ..].
Qed.

Lemma overlapping_units_range (s : pystr) :
  ascii_only s -> Forall (fun u => 0 <= u < 2 ^ 16) (overlapping_units s).
Proof.
  induction 1 as [|c s Hc Hs IH]; [constructor|].
  destruct Hs as [|c1 s' Hc1 Hs']; [constructor|].
  cbn [overlapping_units]. constructor; [lia | exact IH].
Qed.

Lemma fold_mix_range (us : list Z) :
  Forall (fun u => 0 <= u < 2 ^ 16) us ->
  forall h, 0 <= h < 2 ^ 33 ->
  0 <= fold_left (mix ror8) us h < 2 ^ 33.
Proof.
  induction 1 as [|u us Hu _ IH]; intros h Hh; [exact Hh|].
  cbn [fold_left]. apply IH. unfold mix.
  pose proof (ror8_range h).
  apply HasherFacts.lxor_range; lia.
Qed.

(** For a 32-bit seed and an ASCII name the hash is defined, it is not
    negative and it is below [2 ^ 33]: the one bit the unmasked addition can
    carry is the only one above the thirty-two low bits. *)
Theorem hash_below_2_33
    (seed : Z) (function_prefix function_name : pystr) :
  0 <= seed < 2 ^ 32 ->
  ascii_only function_name ->
  exists h,
    _get_function_hash seed function_prefix function_name = Ok h
    /\ 0 <= h < 2 ^ 33.
Proof.
  intros Hseed Hascii.
  assert (Hname : ascii_only
                    (replace1 function_prefix Zw function_name ++ NUL)).
  { apply Forall_app. split; [|repeat constructor].
    apply replace1_Forall; [|assumption]. unfold Zw; cbn. repeat constructor. }
  unfold _get_function_hash.
  rewrite HasherFacts.hash_loop_overlapping by exact Hname.
  eexists. split; [reflexivity|].
  apply fold_mix_range; [now apply overlapping_units_range | lia].
Qed.

Lemma hash_below_2_33_witness :
  exists h,
    _get_function_hash 4294967295 (py "Nt") (py "NtTestAlert") = Ok h
    /\ 0 <= h < 2 ^ 33.
Proof.
  apply (hash_below_2_33 4294967295 (py "Nt") (py "NtTestAlert")).
  - lia.
  - unfold ascii_only. cbn. repeat constructor.
Defined.

(** *** [ror8] as a rotation *)

Lemma testbit_above_32 (v n : Z) :
  0 <= v < 2 ^ 32 -> 32 <= n -> Z.testbit v n = false.
Proof.
  intros Hv Hn. destruct (Z.eq_dec v 0) as [->|Hnz]; [apply Z.bits_0|].
  apply Z.bits_above_log2; [lia|].
  apply Z.lt_le_trans with 32; [apply Z.log2_lt_pow2; lia | assumption].
Qed.

Lemma ror8_testbit (v n : Z) :
  0 <= v < 2 ^ 32 -> 0 <= n < 32 ->
  Z.testbit (ror8 v) n = Z.testbit v ((n + 8) mod 32).
Proof.
  intros Hv Hn. unfold ror8, mask32. change (2 ^ 32 - 1) with (Z.ones 32).
  rewrite Z.lor_spec, !Z.land_spec, Z.shiftr_spec, Z.shiftl_spec by lia.
  rewrite Z.ones_spec_low, !andb_true_r by lia.
  destruct (Z.lt_ge_cases n 24) as [Hlow|Hhigh].
  - rewrite (Z.testbit_neg_r v (n - 24)) by lia. rewrite orb_false_r.
    now rewrite Z.mod_small by lia.
  - rewrite (testbit_above_32 v (n + 8)) by lia. cbn [orb].
    f_equal. replace (n + 8) with ((n - 24) + 1 * 32) by lia.
    rewrite Z.mod_add by lia. now rewrite Z.mod_small by lia.
Qed.

(** On a 32-bit value [ror8] is the rotation right by eight bits: the
    result is a 32-bit value, its bit [n] is bit [n + 8] (modulo 32) of the
    argument, and four rotations give the argument back. *)
Theorem ror8_is_rotation (v : Z) :
  0 <= v < 2 ^ 32 ->
  0 <= ror8 v < 2 ^ 32
  /\ (forall n, 0 <= n < 32 ->
       Z.testbit (ror8 v) n = Z.testbit v ((n + 8) mod 32))
  /\ ror8 (ror8 (ror8 (ror8 v))) = v.
Proof.
  intros Hv. split; [apply ror8_range|]. split; [intros; now apply ror8_testbit|].
  apply Z.bits_inj'. intros n Hn.
  destruct (Z.lt_ge_cases n 32) as [Hlow|Hhigh].
  - assert (Hm : forall m, 0 <= m < 32 -> 0 <= (m + 8) mod 32 < 32)
      by (intros; apply Z.mod_pos_bound; lia).
    rewrite !ror8_testbit;
      auto using ror8_range; try lia; try (repeat apply Hm; lia).
    f_equal. Z.div_mod_to_equations. lia.
  - rewrite (testbit_above_32 v n) by lia.
    apply testbit_above_32; [apply ror8_range | assumption].
Qed.

Lemma ror8_is_rotation_witness :
  0 <= ror8 305419896 < 2 ^ 32
  /\ (forall n, 0 <= n < 32 ->
       Z.testbit (ror8 305419896) n = Z.testbit 305419896 ((n + 8) mod 32))
  /\ ror8 (ror8 (ror8 (ror8 305419896))) = 305419896.
Proof. apply (ror8_is_rotation 305419896). lia. Defined.

End HasherMore.

(** ** Text rendering, continued *)

Module RenderMore.

Import Render.
Open Scope Z_scope.

(** *** Hexadecimal literals *)

Lemma digit_value_hex_digit (d : Z) :
  0 <= d < 16 -> Hex.digit_value (hex_digit d) = Some d.
Proof.
  intros Hd.
  assert (H : d = 0 \/ d = 1 \/ d = 2 \/ d = 3 \/ d = 4 \/ d = 5 \/ d = 6
              \/ d = 7 \/ d = 8 \/ d = 9 \/ d = 10 \/ d = 11 \/ d = 12
              \/ d = 13 \/ d = 14 \/ d = 15) by lia.
  repeat destruct H as [->|H]; try subst d; reflexivity.
Qed.

Lemma hex_digits_acc (fuel : nat) :
  forall n acc, hex_digits fuel n acc = hex_digits fuel n [] ++ acc.
Proof.
  induction fuel as [|fuel IH]; intros n acc; [reflexivity|].
  cbn [hex_digits]. destruct (n <? 16); [reflexivity|].
  rewrite (IH _ (_ :: acc)), (IH _ [_]), <- app_assoc. reflexivity.
Qed.

Lemma hex_digits_spec (fuel : nat) :
  forall n,
    0 <= n < 16 ^ Z.of_nat fuel ->
    let ds := hex_digits fuel n [] in
    (fuel <> O -> ds <> [])
    /\ n < 16 ^ Z.of_nat (length ds)
    /\ ((1 < length ds)%nat -> 16 ^ (Z.of_nat (length ds) - 1) <= n)
    /\ forall rest a,
         Hex.value_from (ds ++ rest) a
         = Hex.value_from rest (a * 16 ^ Z.of_nat (length ds) + n).
Proof.
  induction fuel as [|fuel IH]; intros n Hn.
  - cbn in Hn. cbn [hex_digits length app]. split; [congruence|].
    split; [cbn; lia|]. split; [cbn; lia|].
    intros rest a. f_equal; cbn; lia.
  - cbn [hex_digits]. destruct (Z.ltb_spec n 16) as [Hsmall|Hbig].
    + cbn [length app]. split; [discriminate|].
      split; [cbn; lia|]. split; [cbn; lia|].
      intros rest a. cbn [Hex.value_from].
      rewrite digit_value_hex_digit by lia. f_equal; cbn; lia.
    + rewrite hex_digits_acc.
      assert (Hq : 0 <= n / 16 < 16 ^ Z.of_nat fuel).
      { split; [apply Z.div_pos; lia|].
        apply Z.div_lt_upper_bound; [lia|].
        rewrite Nat2Z.inj_succ, Z.pow_succ_r in Hn by lia. lia. }
      destruct (IH (n / 16) Hq) as (Hne & Hlt & Hge & Hval).
      set (ds := hex_digits fuel (n / 16) []) in *.
      assert (Hlen : (1 <= length ds)%nat).
      { destruct ds as [|c ds']; [|cbn; lia].
        cbn in Hlt. assert (Hz : n / 16 = 0) by lia.
        apply Z.div_small_iff in Hz; lia. }
      pose proof (Z.div_mod n 16 ltac:(lia)) as Hdm.
      pose proof (Z.mod_pos_bound n 16 ltac:(lia)) as Hmod.
      assert (Epow : 16 ^ Z.of_nat (length (ds ++ [hex_digit (n mod 16)]))
                     = 16 * 16 ^ Z.of_nat (length ds)).
      { rewrite length_app. cbn [length].
        replace (Z.of_nat (length ds + 1)) with (Z.succ (Z.of_nat (length ds)))
          by lia.
        apply Z.pow_succ_r. lia. }
      split; [|split; [|split]].
      * intros _ H. apply app_eq_nil in H as [_ H]. discriminate.
      * rewrite Epow. lia.
      * intros _. rewrite length_app. cbn [length].
        replace (Z.of_nat (length ds + 1) - 1) with (Z.of_nat (length ds))
          by lia.
        destruct (Nat.eq_dec (length ds) 1) as [E|E].
        -- rewrite E. cbn. lia.
        -- assert (Hprev : 16 ^ (Z.of_nat (length ds) - 1) <= n / 16)
             by (apply Hge; lia).
           replace (Z.of_nat (length ds))
             with (Z.succ (Z.of_nat (length ds) - 1)) by lia.
           rewrite Z.pow_succ_r by lia. lia.
      * intros rest a. rewrite Epow, <- app_assoc, Hval.
        cbn [app Hex.value_from].
        rewrite digit_value_hex_digit by lia. f_equal; lia.
Qed.

Lemma format_X_fuel (n : Z) :
  0 <= n -> 0 <= n < 16 ^ Z.of_nat (S (Z.to_nat (Z.log2 n))).
Proof.
  intros Hn. split; [assumption|].
  rewrite Nat2Z.inj_succ, Z2Nat.id by apply Z.log2_nonneg.
  destruct (Z.eq_dec n 0) as [->|Hnz]; [reflexivity|].
  apply Z.lt_le_trans with (2 ^ Z.succ (Z.log2 n)).
  - apply Z.log2_spec. lia.
  - apply Z.pow_le_mono_l. pose proof (Z.log2_nonneg n). lia.
Qed.

Lemma value_from_zeros (k : nat) (s : pystr) :
  Hex.value_from (repeat 48%N k ++ s) 0 = Hex.value_from s 0.
Proof. induction k as [|k IH]; [reflexivity | exact IH]. Qed.

(** [f'{n:08X}'] can be read back: for [0 <= n] the text is a hexadecimal
    numeral of value [n]; it has at least eight characters, and exactly
    eight if and only if [n < 2 ^ 32]. *)
Theorem format_08X_reads_back (n : Z) :
  0 <= n ->
  Hex.value (format_08X n) = Some n
  /\ (8 <= length (format_08X n))%nat
  /\ (length (format_08X n) = 8%nat <-> n < 2 ^ 32).
Proof.
  intros Hn. unfold format_08X.
  destruct (Z.ltb_spec n 0) as [Hneg|_]; [lia|].
  destruct (hex_digits_spec _ n (format_X_fuel n Hn))
    as (Hne & Hlt & Hge & Hval).
  fold (format_X n) in *. unfold zfill.
  set (ds := format_X n) in *.
  assert (Hlen : (1 <= length ds)%nat).
  { destruct ds; [now destruct Hne | cbn; lia]. }
  split; [|split].
  - unfold Hex.value.
    destruct (repeat 48%N (8 - length ds) ++ ds) as [|c r] eqn:E.
    { apply app_eq_nil in E as [_ E]. rewrite E in Hlen. cbn in Hlen. lia. }
    rewrite <- E, value_from_zeros.
    rewrite <- (app_nil_r ds), Hval. cbn [Hex.value_from]. f_equal; lia.
  - rewrite length_app, repeat_length. lia.
  - rewrite length_app, repeat_length. split.
    + intros Hfit. assert (Hds : (length ds <= 8)%nat) by lia.
      apply Z.lt_le_trans with (16 ^ Z.of_nat (length ds)); [assumption|].
      change (2 ^ 32) with (16 ^ 8). apply Z.pow_le_mono_r; lia.
    + intros Hsmall.
      destruct (Nat.le_gt_cases (length ds) 8) as [Hle|Hgt]; [lia|].
      assert (16 ^ 8 <= 16 ^ (Z.of_nat (length ds) - 1))
        by (apply Z.pow_le_mono_r; lia).
      assert (16 ^ (Z.of_nat (length ds) - 1) <= n) by (apply Hge; lia).
      change (2 ^ 32) with (16 ^ 8) in Hsmall. lia.
Qed.

Lemma format_08X_reads_back_witness :
  Hex.value (format_08X 8495853396) = Some 8495853396
  /\ (8 <= length (format_08X 8495853396))%nat
  /\ (length (format_08X 8495853396) = 8%nat <-> 8495853396 < 2 ^ 32).
Proof. apply (format_08X_reads_back 8495853396). lia. Defined.

(** *** Occurrences *)

Lemma occurs_in_app_l (x s t : pystr) : occurs_in x s -> occurs_in x (s ++ t).
Proof.
  intros (b & a & ->). exists b, (a ++ t). now rewrite <- !app_assoc.
Qed.

Lemma occurs_in_app_r (x s t : pystr) : occurs_in x t -> occurs_in x (s ++ t).
Proof.
  intros (b & a & ->). exists (s ++ b), a. now rewrite <- !app_assoc.
Qed.

Lemma occurs_in_here (x t : pystr) : occurs_in x (x ++ t).
Proof. exists [], t. reflexivity. Qed.

(** One parameter of the list, up to the separator. *)
Lemma render_params_cons (param : Param) (rest : list Param) :
  render_params (param :: rest)
  = NL ++ TAB
    ++ (if param_in param then py "IN " else [])
    ++ (if param_out param then py "OUT " else [])
    ++ param_type param ++ py " " ++ param_name param
    ++ (if param_optional param then py " OPTIONAL" else [])
    ++ (match rest with [] => py ");" | _ :: _ => py "," end)
    ++ render_params rest.
Proof. reflexivity. Qed.

(** *** Prototypes *)

Lemma render_params_ends (p : Param) (ps : list Param) :
  exists body, render_params (p :: ps) = NL ++ body ++ py ");".
Proof.
  revert p. induction ps as [|q ps IH]; intros p; rewrite render_params_cons.
  - cbn [render_params]. rewrite app_nil_r.
    match goal with
    | |- exists body, NL ++ ?a ++ ?b ++ ?c ++ ?d ++ ?e ++ ?f ++ ?g ++ _ = _ =>
        exists (a ++ b ++ c ++ d ++ e ++ f ++ g)
    end.
    now rewrite <- !app_assoc.
  - destruct (IH q) as [body ->].
    match goal with
    | |- exists body', NL ++ ?a ++ ?b ++ ?c ++ ?d ++ ?e ++ ?f ++ ?g ++ ?h
                       ++ NL ++ body ++ _ = _ =>
        exists (a ++ b ++ c ++ d ++ e ++ f ++ g ++ h ++ NL ++ body)
    end.
    now rewrite <- !app_assoc.
Qed.

Lemma render_params_declares (ps : list Param) (p : Param) :
  In p ps ->
  occurs_in (param_type p ++ py " " ++ param_name p) (render_params ps).
Proof.
  induction ps as [|q ps IH]; intros Hin; [destruct Hin|].
  rewrite render_params_cons. destruct Hin as [->|Hin].
  - do 4 apply occurs_in_app_r.
    exists [], ((if param_optional p then py " OPTIONAL" else [])
                ++ (match ps with [] => py ");" | _ :: _ => py "," end)
                ++ render_params ps).
    cbn [app]. now rewrite <- !app_assoc.
  - do 9 apply occurs_in_app_r. now apply IH.
Qed.

(** For a name that is not a key of the catalog [_get_function_prototype]
    raises [ValueError].  For a key it returns
    [EXTERN_C NTSTATUS name( ... );] in which every parameter is declared
    as [type name]; between the parentheses there is nothing exactly when
    the function has no parameter. *)
Theorem prototype_form (prototypes : dict) (function_name : pystr) :
  (dict_get function_name prototypes = None ->
   _get_function_prototype prototypes function_name
   = Raise ValueError_invalid_function_name)
  /\ (forall proto,
        dict_get function_name prototypes = Some proto ->
        exists signature body,
          _get_function_prototype prototypes function_name = Ok signature
          /\ signature = py "EXTERN_C NTSTATUS " ++ function_name ++ py "("
                         ++ body ++ py ");"
          /\ (params proto = [] <-> body = [])
          /\ forall p, In p (params proto) ->
               occurs_in (param_type p ++ py " " ++ param_name p) signature).
Proof.
  unfold _get_function_prototype. split.
  - intros ->. reflexivity.
  - intros proto ->. destruct (params proto) as [|p ps] eqn:E.
    + eexists _, []. split; [reflexivity|]. split; [|split].
      * generalize (py "EXTERN_C NTSTATUS ") (py "(") (py ");").
        intros a b c. now rewrite <- !app_assoc.
      * tauto.
      * intros p [].
    + destruct (render_params_ends p ps) as [body Hbody].
      eexists _, (NL ++ body). split; [reflexivity|]. split; [|split].
      * rewrite Hbody. generalize (py "EXTERN_C NTSTATUS ") (py "(") (py ");").
        intros a b c. now rewrite <- !app_assoc.
      * split; discriminate.
      * intros q Hq. apply occurs_in_app_r.
        now apply render_params_declares.
Qed.

Lemma prototype_form_witness :
  exists signature body,
    _get_function_prototype Examples.catalog (py "NtFoo") = Ok signature
    /\ signature = py "EXTERN_C NTSTATUS " ++ py "NtFoo" ++ py "("
                   ++ body ++ py ");"
    /\ (params {| params := [Examples.param_of "Foo" "PFOO";
                             Examples.param_of "Count" "ULONG"] |} = []
        <-> body = [])
    /\ forall p,
         In p (params {| params := [Examples.param_of "Foo" "PFOO";
                                    Examples.param_of "Count" "ULONG"] |}) ->
         occurs_in (param_type p ++ py " " ++ param_name p) signature.
Proof.
  apply (proj2 (prototype_form Examples.catalog (py "NtFoo"))).
  reflexivity.
Defined.

(** *** Stubs *)

Lemma asm_x64_form (name : pystr) (h : Z) :
  exists body,
    asm_x64 name h = name ++ py " PROC" ++ NL ++ body ++ name ++ py " ENDP" ++ NL
    /\ occurs_in (py "0" ++ format_08X h ++ py "h") body.
Proof.
  unfold asm_x64.
  match goal with
  | |- exists body, name ++ ?proc ++ NL ++ ?t1 ++ ?l1 ++ NL ++ ?t2 ++ ?l2 ++ NL
         ++ ?t3 ++ ?l3 ++ NL ++ ?t4 ++ ?l4 ++ NL ++ ?t5 ++ ?l5 ++ NL
         ++ ?t6 ++ ?l6 ++ ?f ++ ?l6' ++ ?tail = _ /\ _ =>
      exists (t1 ++ l1 ++ NL ++ t2 ++ l2 ++ NL ++ t3 ++ l3 ++ NL ++ t4 ++ l4 ++ NL
              ++ t5 ++ l5 ++ NL ++ t6 ++ py "mov ecx, "
              ++ (py "0" ++ f ++ py "h")
              ++ py "        ; Load function hash into ECX." ++ NL
              ++ TAB ++ py "call SW2_GetSyscallNumber  ; Resolve function hash into syscall number." ++ NL
              ++ TAB ++ py "add rsp, 28h" ++ NL
              ++ TAB ++ py "mov rcx, [rsp +8]          ; Restore registers." ++ NL
              ++ TAB ++ py "mov rdx, [rsp+16]" ++ NL
              ++ TAB ++ py "mov r8, [rsp+24]" ++ NL
              ++ TAB ++ py "mov r9, [rsp+32]" ++ NL
              ++ TAB ++ py "mov r10, rcx" ++ NL
              ++ TAB ++ py "syscall                    ; Invoke system call." ++ NL
              ++ TAB ++ py "ret" ++ NL)
  end.
  split.
  - generalize (format_08X h). intros f. rewrite <- !app_assoc.
    reflexivity.
  - do 17 apply occurs_in_app_r. apply occurs_in_here.
Qed.

Lemma asm_x86_64_form (name : pystr) (h : Z) :
  exists body,
    asm_x86_64 name h
    = name ++ py " PROC" ++ NL ++ body ++ name ++ py " ENDP" ++ NL
    /\ occurs_in (py "0" ++ format_08X h ++ py "h") body.
Proof.
  unfold asm_x86_64.
  exists (TAB ++ py "push "
          ++ (py "0" ++ format_08X h ++ py "h") ++ NL
          ++ TAB ++ py "call SW2_GetSyscallNumber  ; Resolve function hash into syscall number." ++ NL
          ++ TAB ++ py "add esp, 4" ++ NL
          ++ TAB ++ py "mov ecx, fs:[0c0h]" ++ NL
          ++ TAB ++ py "test ecx, ecx" ++ NL
          ++ TAB ++ py "jne _wow64" ++ NL
          ++ TAB ++ py "lea edx, [esp+4h]" ++ NL
          ++ TAB ++ py "INT 02eh" ++ NL
          ++ TAB ++ py "ret" ++ NL
          ++ TAB ++ py "_wow64:" ++ NL
          ++ TAB ++ py "xor ecx, ecx" ++ NL
          ++ TAB ++ py "lea edx, [esp+4h]" ++ NL
          ++ TAB ++ py "call dword ptr fs:[0c0h]" ++ NL
          ++ TAB ++ py "ret" ++ NL).
  split.
  - generalize (format_08X h). intros f. rewrite <- !app_assoc.
    reflexivity.
  - do 2 apply occurs_in_app_r. apply occurs_in_here.
Qed.

(** [_get_function_asm_code] fails only if the hash does, whatever the
    architecture.  With a hash [h], each of the two architectures gives a
    block that opens with [name PROC], closes with [name ENDP] and holds
    the literal [0<h as 08X>h]; any other architecture gives the empty
    string, without an error. *)
Theorem asm_code_form
    (architecture : pystr) (seed : Z) (function_prefix function_name : pystr) :
  (forall e,
      Hasher._get_function_hash seed function_prefix function_name = Raise e ->
      _get_function_asm_code architecture seed function_prefix function_name
      = Raise e)
  /\ (forall h,
        Hasher._get_function_hash seed function_prefix function_name = Ok h ->
        (architecture <> x64 -> architecture <> x86_64 ->
         _get_function_asm_code architecture seed function_prefix function_name
         = Ok [])
        /\ (architecture = x64 \/ architecture = x86_64 ->
            exists body,
              _get_function_asm_code architecture seed function_prefix
                function_name
              = Ok (function_name ++ py " PROC" ++ NL ++ body
                    ++ function_name ++ py " ENDP" ++ NL)
              /\ occurs_in (py "0" ++ format_08X h ++ py "h") body)).
Proof.
  unfold _get_function_asm_code. split.
  - intros e ->. reflexivity.
  - intros h ->. cbn [obind]. split.
    + intros H64 H86.
      apply pystr_eqb_neq in H64, H86. now rewrite H64, H86.
    + intros [->| ->].
      * rewrite pystr_eqb_refl.
        destruct (asm_x64_form function_name h) as (body & -> & Hocc). eauto.
      * change (pystr_eqb x86_64 x64) with false. rewrite pystr_eqb_refl.
        destruct (asm_x86_64_form function_name h) as (body & -> & Hocc). eauto.
Qed.

Lemma asm_code_form_witness :
  _get_function_asm_code (py "arm") 269063580 (py "Nt") (py "NtClose") = Ok [].
Proof.
  apply (proj1 (proj2 (asm_code_form (py "arm") 269063580 (py "Nt")
                         (py "NtClose"))
                 8495853396 ltac:(vm_compute; reflexivity)));
    intros H; vm_compute in H; discriminate H.
Defined.

End RenderMore.

(** ** The dependency resolver, continued *)

Module ResolverMore.

Import Resolver ResolverFacts Dependencies.

Section WithCatalogs.

Context {set_of_str : SetIter pystr} {set_of_id : SetIter nat}.

Variable typedefs : list TypeDefinition.
Variable prototypes : dict.

(** *** A function that is not in the catalog *)

Lemma scan_functions_app (known rest : list pystr) :
  (forall g, In g known -> dict_mem g prototypes = true) ->
  forall used, exists used',
    scan_functions typedefs prototypes (known ++ rest) used
    = scan_functions typedefs prototypes rest used'.
Proof.
  induction known as [|g known IH]; intros Hknown used; [eauto|].
  cbn [app scan_functions].
  destruct (proj1 (dict_mem_get g prototypes) (Hknown g (or_introl eq_refl)))
    as [proto ->].
  apply IH. intros; apply Hknown; now right.
Qed.

(** [_get_typedefs] raises [KeyError] for the first function name that is
    not a key of the catalog, before it looks at any definition. *)
Theorem missing_function_raises_KeyError
    (fuel : nat) (known : list pystr) (f : pystr) (rest : list pystr) :
  (forall g, In g known -> dict_mem g prototypes = true) ->
  dict_get f prototypes = None ->
  _get_typedefs typedefs prototypes fuel (known ++ f :: rest)
  = Raise (KeyError f).
Proof.
  intros Hknown Hf. unfold _get_typedefs, resolve_ids.
  destruct (scan_functions_app known (f :: rest) Hknown []) as [used ->].
  cbn [scan_functions]. now rewrite Hf.
Qed.

(** *** Dependency cycles *)

Lemma reaches_trans (a b : nat) (x y z : nat) :
  reaches typedefs a x y -> reaches typedefs b y z ->
  reaches typedefs (a + b) x z.
Proof.
  induction 1 as [x | n x w y Hdep _ IH]; intros Hyz; [exact Hyz|].
  cbn [Nat.add]. apply reaches_step with w; auto.
Qed.

Lemma cycle_is_endless (x : nat) (k : nat) :
  reaches typedefs (S k) x x ->
  forall m, reaches typedefs (m * S k) x x.
Proof.
  intros Hcycle. induction m as [|m IH]; [constructor|].
  cbn [Nat.mul]. now apply reaches_trans with x.
Qed.

(** A tower of [n] layers has no room for a path of [n] dependencies. *)
Lemma tower_depth (current : list nat) (layers : list (list nat)) :
  tower typedefs current layers ->
  forall l x n z,
    In l layers -> In x l -> reaches typedefs n x z -> n < length layers.
Proof.
  induction 1 as [l0 Hterm | l0 l' layers [Hfwd _] Htower IH];
    intros l x n z Hl Hx Hpath.
  - destruct Hl as [<-|[]].
    destruct Hpath as [x | n x y z Hdep _]; [cbn; lia|].
    destruct (Hterm x y Hx Hdep).
  - cbn [length]. destruct Hl as [<-|Hl].
    + destruct Hpath as [x | n x y z Hdep Hpath]; [lia|].
      apply -> Nat.succ_lt_mono.
      apply IH with l' y z; [|eauto | assumption].
      destruct (tower_head _ _ _ Htower) as [rest ->]. now left.
    + apply Nat.lt_lt_succ_r. now apply IH with l x z.
Qed.

Lemma needed_in_tower (function_names : list pystr)
    (layer0 : list nat) (layers : list (list nat)) :
  tower typedefs layer0 layers ->
  (forall x, requested typedefs prototypes function_names x -> In x layer0) ->
  forall x, needed typedefs prototypes function_names x ->
  exists l, In l layers /\ In x l.
Proof.
  intros Htower Hreq x Hneeded.
  induction Hneeded as [x Hx | x y _ IH Hdep].
  - exists layer0. split; [|now apply Hreq].
    destruct (tower_head _ _ _ Htower) as [rest ->]. now left.
  - destruct IH as (l & Hl & Hx).
    exact (tower_closed _ _ _ Htower l x y Hl Hx Hdep).
Qed.

(** With every dependency name defined, a round of the loop raises
    nothing: it ends the loop or leads to the next round. *)
Lemma resolve_layers_never_raises (fuel : nat) :
  dependencies_defined typedefs ->
  forall done current e,
    (forall x, In x current -> x < length typedefs) ->
    resolve_layers typedefs fuel done current <> Raise e.
Proof.
  intros Hdefined.
  induction fuel as [|fuel IH]; intros done current e Hvalid;
    cbn [resolve_layers]; [discriminate|].
  destruct (layer_dependencies_Ok typedefs current Hvalid)
    as (deps & -> & Hdeps).
  cbn [obind].
  destruct (set_iter deps) as [|d0 more] eqn:Emore; [discriminate|].
  assert (Hnext : exists next, _names_to_ids typedefs (d0 :: more) = Ok next).
  { apply omap_total. intros d Hd. apply has_typedef_found.
    rewrite <- Emore in Hd.
    apply (proj1 (set_iter_In deps d)) in Hd.
    apply (proj1 (Hdeps d)) in Hd as (x & t & Hx & Ht & Hd).
    apply Hdefined with t; [now apply nth_error_In with x | assumption]. }
  destruct Hnext as [next Enext]. rewrite Enext. cbn [obind].
  apply IH. exact (names_to_ids_valid _ _ _ Enext).
Qed.

(** When every requested function is in the catalog, every dependency
    name has a definition, and a definition needed, directly or
    transitively, by a parameter of a requested function lies on a
    dependency cycle, the loop of [_get_typedefs] does not end: whatever
    number of rounds it is given, it is still running after them, having
    neither returned nor raised. *)
Theorem cycle_never_returns
    (function_names : list pystr) (x : nat) :
  (forall f, In f function_names -> dict_mem f prototypes = true) ->
  dependencies_defined typedefs ->
  needed typedefs prototypes function_names x ->
  on_cycle typedefs x ->
  forall fuel,
    _get_typedefs typedefs prototypes fuel function_names = OutOfFuel.
Proof.
  intros Hall Hdefined Hx [k Hcycle] fuel.
  destruct (layer0_Ok typedefs prototypes function_names Hall)
    as (used & layer0 & Hscan & Hids & Hreq).
  unfold _get_typedefs, resolve_ids.
  rewrite Hscan. cbn [obind]. rewrite Hids. cbn [obind].
  pose proof (names_to_ids_valid _ _ _ Hids) as Hvalid.
  destruct (resolve_layers typedefs fuel [] layer0) as [layers|e|] eqn:Hlayers.
  - exfalso.
    destruct (resolve_layers_tower typedefs _ _ _ _ Hvalid Hlayers)
      as (rest & Erest & Htower).
    cbn [app] in Erest. subst rest.
    destruct (needed_in_tower function_names _ _ Htower
                (fun z Hz => proj2 (Hreq z) Hz) x Hx) as (l & Hl & Hxl).
    pose proof (tower_depth _ _ Htower l x _ x Hl Hxl
                  (cycle_is_endless x k Hcycle (length layers))) as Hlt.
    nia.
  - exfalso. exact (resolve_layers_never_raises fuel Hdefined [] layer0 e
                      Hvalid Hlayers).
  - reflexivity.
Qed.

(** *** Definitions without dependencies *)

Lemma first_seen_In (l : list pystr) (x : pystr) :
  In x (first_seen l) <-> In x l.
Proof.
  unfold first_seen. rewrite <- in_rev, nodup_In, <- in_rev. tauto.
Qed.

Lemma first_seen_snoc (l : list pystr) (x : pystr) :
  first_seen (l ++ [x])
  = if mem_str x (first_seen l) then first_seen l else first_seen l ++ [x].
Proof.
  unfold first_seen at 1. rewrite rev_app_distr. cbn [rev app nodup].
  destruct (in_dec pystr_eq_dec x (rev l)) as [Hin|Hout].
  - replace (mem_str x (first_seen l)) with true; [reflexivity|].
    symmetry. apply mem_str_In, first_seen_In. now apply in_rev.
  - replace (mem_str x (first_seen l)) with false; [reflexivity|].
    symmetry. apply not_true_is_false. intros H.
    apply mem_str_In in H. apply (proj1 (first_seen_In _ _)) in H.
    apply Hout. now apply -> in_rev.
Qed.

Lemma scan_params_first_seen (ps : list Param) :
  forall l,
    scan_params typedefs ps (first_seen l)
    = first_seen (l ++ filter (has_typedef typedefs) (map param_type ps)).
Proof.
  induction ps as [|p ps IH]; intros l; cbn [scan_params map filter].
  - now rewrite app_nil_r.
  - destruct (has_typedef typedefs (param_type p)).
    + rewrite <- first_seen_snoc, IH, <- app_assoc. reflexivity.
    + apply IH.
Qed.

Lemma scan_functions_first_seen (function_names : list pystr) :
  (forall f, In f function_names -> dict_mem f prototypes = true) ->
  forall l,
    scan_functions typedefs prototypes function_names (first_seen l)
    = Ok (first_seen
            (l ++ filter (has_typedef typedefs)
                    (parameter_types prototypes function_names))).
Proof.
  induction function_names as [|f fns IH]; intros Hall l;
    cbn [scan_functions parameter_types flat_map].
  - now rewrite app_nil_r.
  - destruct (proj1 (dict_mem_get f prototypes) (Hall f (or_introl eq_refl)))
      as [proto ->].
    rewrite scan_params_first_seen, IH by (intros; apply Hall; now right).
    rewrite filter_app. now rewrite <- app_assoc.
Qed.

(** When no definition requested by a parameter has dependencies, the
    definitions come out in the order in which their names are first used
    by the parameters, one per name, whatever order sets iterate in. *)
Theorem without_dependencies_first_use_order
    (fuel : nat) (function_names : list pystr) :
  (forall f, In f function_names -> dict_mem f prototypes = true) ->
  (forall x t,
      requested typedefs prototypes function_names x ->
      nth_error typedefs x = Some t -> dependencies t = []) ->
  exists ids,
    _names_to_ids typedefs
      (first_seen (filter (has_typedef typedefs)
                     (parameter_types prototypes function_names)))
    = Ok ids
    /\ resolve_ids typedefs prototypes (S fuel) function_names = Ok ids.
Proof.
  intros Hall Hleaf.
  destruct (layer0_Ok typedefs prototypes function_names Hall)
    as (used & layer0 & Hscan & Hids & Hreq).
  pose proof (scan_functions_first_seen function_names Hall []) as Hfs.
  change (first_seen []) with (@nil pystr) in Hfs. cbn [app] in Hfs.
  rewrite Hscan in Hfs. injection Hfs as ->.
  exists layer0. split; [exact Hids|].
  destruct (layer_dependencies_Ok typedefs layer0
              (names_to_ids_valid _ _ _ Hids)) as (deps & Hdeps & Hin).
  assert (deps = []) as ->.
  { destruct deps as [|d deps]; [reflexivity|].
    destruct (proj1 (Hin d) (or_introl eq_refl)) as (x & t & Hx & Ht & Hd).
    rewrite (Hleaf x t (proj1 (Hreq x) Hx) Ht) in Hd. destruct Hd. }
  unfold resolve_ids. rewrite Hscan. cbn [obind]. rewrite Hids.
  cbn [obind resolve_layers]. rewrite Hdeps. cbn [obind].
  rewrite set_iter_nil. cbn. now rewrite app_nil_r.
Qed.

End WithCatalogs.

End ResolverMore.

Lemma missing_function_raises_KeyError_witness :
  Resolver._get_typedefs Examples.two_layers Examples.catalog 2
    ([py "NtFoo"] ++ py "NtOpenProcess" :: [py "NtClose"])
  = Raise (KeyError (py "NtOpenProcess")).
Proof.
  apply (ResolverMore.missing_function_raises_KeyError
           Examples.two_layers Examples.catalog 2
           [py "NtFoo"] (py "NtOpenProcess") [py "NtClose"]).
  - intros g [<-|[]]. reflexivity.
  - reflexivity.
Defined.

Lemma cyclic_defined : Resolver.dependencies_defined Examples.cyclic.
Proof.
  intros t d [<-|[<-|[]]] Hd; cbn in Hd; destruct Hd as [<-|[]]; reflexivity.
Qed.

Lemma cycle_never_returns_witness :
  Resolver._get_typedefs Examples.cyclic Examples.catalog 100 [py "NtFoo"]
  = OutOfFuel.
Proof.
  apply (ResolverMore.cycle_never_returns Examples.cyclic Examples.catalog
           [py "NtFoo"] 0).
  - intros f [<-|[]]. reflexivity.
  - exact cyclic_defined.
  - apply Resolver.needed_direct.
    exists (py "NtFoo"), {| params := [Examples.param_of "Foo" "PFOO";
                                       Examples.param_of "Count" "ULONG"] |},
           (Examples.param_of "Foo" "PFOO").
    repeat split; try reflexivity; now left.
  - exists 1. apply Dependencies.reaches_step with 1.
    + eexists _, (py "FOO"). repeat split; try reflexivity; now left.
    + apply Dependencies.reaches_step with 0; [|constructor].
      eexists _, (py "PFOO"). repeat split; try reflexivity; now left.
Defined.

Lemma undefined_dependency_raises_witness :
  Resolver._get_typedefs Examples.dangling Examples.catalog 1
    [py "NtFoo"; py "NtTestAlert"]
  = Raise StopIteration.
Proof.
  apply (ResolverFacts.undefined_dependency_raises
           Examples.dangling Examples.catalog 0
           [py "NtFoo"; py "NtTestAlert"] 0 Examples.PFOO_def (py "FOO")).
  - intros f [<-|[<-|[]]]; reflexivity.
  - exists (py "NtFoo"), {| params := [Examples.param_of "Foo" "PFOO";
                                       Examples.param_of "Count" "ULONG"] |},
           (Examples.param_of "Foo" "PFOO").
    repeat split; try reflexivity; now left.
  - reflexivity.
  - now left.
  - reflexivity.
Defined.

Lemma without_dependencies_first_use_order_witness :
  exists ids,
    Resolver._names_to_ids [Examples.BAR_def; Examples.FOO_def]
      (first_seen
         (filter (Resolver.has_typedef [Examples.BAR_def; Examples.FOO_def])
            (parameter_types Examples.catalog [py "NtBar"; py "NtClose"])))
    = Ok ids
    /\ Resolver.resolve_ids [Examples.BAR_def; Examples.FOO_def]
         Examples.catalog 1 [py "NtBar"; py "NtClose"] = Ok ids.
Proof.
  apply (ResolverMore.without_dependencies_first_use_order
           [Examples.BAR_def; Examples.FOO_def] Examples.catalog 0
           [py "NtBar"; py "NtClose"]).
  - intros f [<-|[<-|[]]]; reflexivity.
  - intros x t _ Ht. destruct x as [|[|x]]; cbn in Ht.
    + now injection Ht as <-.
    + now injection Ht as <-.
    + destruct x; discriminate.
Defined.

(** ** Dictionaries, continued *)

Lemma dict_get_set_same (k : pystr) (v : Prototype) (d : dict) :
  dict_get k (dict_set k v d) = Some v.
Proof.
  induction d as [|[k' v'] d IH]; cbn.
  - now rewrite pystr_eqb_refl.
  - destruct (pystr_eqb k k') eqn:E; cbn; rewrite E; [reflexivity | exact IH].
Qed.

Lemma dict_get_set_other (k k' : pystr) (v : Prototype) (d : dict) :
  k <> k' -> dict_get k (dict_set k' v d) = dict_get k d.
Proof.
  intros Hne. induction d as [|[k0 v0] d IH]; cbn.
  - apply pystr_eqb_neq in Hne. now rewrite Hne.
  - destruct (pystr_eqb k' k0) eqn:E; cbn.
    + apply pystr_eqb_eq in E as <-.
      apply pystr_eqb_neq in Hne. now rewrite Hne.
    + now rewrite IH.
Qed.

Lemma dict_get_del_same (k : pystr) (d : dict) :
  dict_get k (dict_del k d) = None.
Proof.
  unfold dict_del.
  induction d as [|[k' v'] d IH]; cbn; [reflexivity|].
  destruct (pystr_eqb k k') eqn:E; cbn; [exact IH|].
  now rewrite E.
Qed.

Lemma dict_get_del_other (k k' : pystr) (d : dict) :
  k <> k' -> dict_get k (dict_del k' d) = dict_get k d.
Proof.
  intros Hne. unfold dict_del.
  induction d as [|[k0 v0] d IH]; cbn; [reflexivity|].
  destruct (pystr_eqb k' k0) eqn:E; cbn.
  - apply pystr_eqb_eq in E as <-.
    apply pystr_eqb_neq in Hne. now rewrite Hne.
  - now rewrite IH.
Qed.

Lemma dict_keys_del (k : pystr) (d : dict) :
  dict_keys (dict_del k d)
  = filter (fun k' => negb (pystr_eqb k k')) (dict_keys d).
Proof.
  unfold dict_del, dict_keys.
  induction d as [|[k' v'] d IH]; cbn; [reflexivity|].
  destruct (pystr_eqb k k'); cbn; now rewrite <- IH.
Qed.

Lemma dict_keys_set (k : pystr) (v : Prototype) (d : dict) :
  dict_keys (dict_set k v d)
  = if dict_mem k d then dict_keys d else dict_keys d ++ [k].
Proof.
  unfold dict_keys, dict_mem.
  induction d as [|[k' v'] d IH]; cbn; [reflexivity|].
  destruct (pystr_eqb k k') eqn:E; cbn; [reflexivity|].
  rewrite IH. now destruct (existsb _ d).
Qed.

(** Assignment and deletion keep the keys of a dictionary distinct. *)
Lemma dict_set_NoDup (k : pystr) (v : Prototype) (d : dict) :
  NoDup (dict_keys d) -> NoDup (dict_keys (dict_set k v d)).
Proof.
  intros Hd. rewrite dict_keys_set. destruct (dict_mem k d) eqn:E; [assumption|].
  apply NoDup_app; [assumption | repeat constructor; intros [] |].
  intros x Hx [<-|[]]. apply dict_mem_keys in Hx. congruence.
Qed.

Lemma dict_del_NoDup (k : pystr) (d : dict) :
  NoDup (dict_keys d) -> NoDup (dict_keys (dict_del k d)).
Proof. intros Hd. rewrite dict_keys_del. now apply NoDup_filter. Qed.

(** ** The session, continued *)

Module SessionMore.

Import Render Session SessionFacts.

Create HintDb appends.

Open Scope session_scope.

Section WithSession.

Context {platform : Platform}.
Context {set_of_str : SetIter pystr} {set_of_id : SetIter nat}.

Variable env : Env.

(** *** The three paths *)

(** The three files of a session have three different paths: the C file
    and the header differ in their extension, and the assembly file has
    one of the suffixes [stubs], [Stubs], [_stubs], [_Stubs] before its
    own, with the underscore exactly when the basename contains one and
    the capital exactly when its last component is title-cased. *)
Theorem output_paths_distinct (basename : pystr) :
  c_path basename <> h_path basename
  /\ c_path basename <> asm_path basename
  /\ h_path basename <> asm_path basename
  /\ basename_suffix basename
     = (if contains (py "_") basename then py "_" else [])
       ++ (if str_istitle (os_path_basename basename)
           then py "Stubs" else py "stubs").
Proof.
  unfold c_path, h_path, asm_path, basename_suffix.
  repeat split.
  - intros H. apply app_inv_head in H. vm_compute in H. discriminate H.
  - intros H. apply app_inv_head in H. apply (f_equal (@length N)) in H.
    rewrite length_app in H. cbn in H. lia.
  - intros H. apply app_inv_head in H. apply (f_equal (@length N)) in H.
    rewrite length_app in H. cbn in H. lia.
  - destruct (contains (py "_") basename),
      (str_istitle (os_path_basename basename)); reflexivity.
Qed.

(** *** A failure while the header is written *)


(** *** Text that cannot be encoded *)



(** *** One round of the prefix change *)

Lemma rename_functions_step (f : pystr) (rest acc : list pystr) (s : State) :
  rename_functions env (f :: rest) acc s
  = if pystr_eqb (replace1 Nt (function_prefix env) f) f
    then rename_functions env rest
           (acc ++ [replace1 Nt (function_prefix env) f]) s
    else match dict_get f (prototypes s) with
         | None => (Raise (KeyError f), s)
         | Some v =>
             rename_functions env rest
               (acc ++ [replace1 Nt (function_prefix env) f])
               {| prototypes :=
                    dict_del f
                      (dict_set (replace1 Nt (function_prefix env) f) v
                         (prototypes s));
                  files := files s |}
         end.
Proof.
  cbn [rename_functions]. unfold bind at 1.
  destruct (pystr_eqb (replace1 Nt (function_prefix env) f) f);
    [reflexivity|].
  unfold bind, get_prototypes, lift, set_prototypes.
  destruct (dict_get f (prototypes s)); reflexivity.
Qed.

(** *** A name requested twice *)

(** With a prefix other than [Nt], a request that names twice in a row a
    function the prefix change renames ends in [KeyError] before any file
    is opened: the first pass has moved the entry away. *)
Theorem repeated_name_raises_KeyError
    (fuel : nat) (f : pystr) (rest : list pystr) (basename : pystr)
    (s : State) :
  function_prefix env <> Nt ->
  replace1 Nt (function_prefix env) f <> f ->
  dict_mem f (prototypes s) = true ->
  (forall g, In g rest -> dict_mem g (prototypes s) = true) ->
  exists s',
    generate env fuel (f :: f :: rest) basename s = (Raise (KeyError f), s')
    /\ files s' = files s.
Proof.
  intros Hprefix Hren Hf Hrest.
  rewrite generate_prepare. unfold prepare, bind at 1.
  rewrite select_functions_known
    by (intros g [<-|[<-|Hg]]; [assumption | assumption | now apply Hrest]).
  unfold change_prefix.
  apply pystr_eqb_neq in Hprefix, Hren. rewrite Hprefix.
  rewrite rename_functions_step, Hren.
  destruct (proj1 (dict_mem_get f (prototypes s)) Hf) as [v ->].
  rewrite rename_functions_step, Hren. cbn [prototypes].
  rewrite dict_get_del_same. cbn [files]. eauto.
Qed.

(** *** Where the prefix change puts the entries *)

Local Abbreviation renamed := (replace1 Nt (function_prefix env)).

Lemma rename_functions_relocates (l : list pystr) :
  forall acc s,
    NoDup l ->
    (forall f, In f l -> dict_mem f (prototypes s) = true) ->
    NoDup (map renamed l) ->
    (forall f g, In f l -> In g l -> renamed f = g -> f = g) ->
    exists s1,
      rename_functions env l acc s = (Ok (acc ++ map renamed l), s1)
      /\ files s1 = files s
      /\ (forall f, In f l ->
            dict_get (renamed f) (prototypes s1) = dict_get f (prototypes s))
      /\ (forall k, ~ In k l -> ~ In k (map renamed l) ->
            dict_get k (prototypes s1) = dict_get k (prototypes s))
      /\ (forall f, In f l -> renamed f <> f ->
            dict_get f (prototypes s1) = None).
Proof.
  induction l as [|f l IH]; intros acc s Hnodup Hkeys Hfresh Hapart.
  - exists s. cbn. rewrite app_nil_r. repeat split; intros; tauto.
  - inversion Hnodup as [|? ? Hf Hnodup']; subst.
    cbn [map] in Hfresh. inversion Hfresh as [|? ? Hrf Hfresh']; subst.
    assert (Hapart' : forall a b, In a l -> In b l -> renamed a = b -> a = b).
    { intros a b Ha Hb. apply Hapart; now right. }
    assert (Hrf_l : ~ In (renamed f) l).
    { intros Hin. apply Hf.
      rewrite (Hapart f (renamed f) (or_introl eq_refl) (or_intror Hin) eq_refl)
        at 1.
      exact Hin. }
    assert (Hf_rl : ~ In f (map renamed l)).
    { intros Hin. apply in_map_iff in Hin as (g & Hg & Hin).
      apply Hf.
      rewrite <- (Hapart g f (or_intror Hin) (or_introl eq_refl) Hg).
      exact Hin. }
    rewrite rename_functions_step.
    destruct (pystr_eqb (renamed f) f) eqn:Eren.
    + apply pystr_eqb_eq in Eren.
      destruct (IH (acc ++ [renamed f]) s Hnodup'
                  (fun g Hg => Hkeys g (or_intror Hg)) Hfresh' Hapart')
        as (s1 & Hrun & Hfiles & Hmoved & Hother & Hgone).
      exists s1. rewrite Hrun, <- app_assoc. cbn [app map].
      split; [reflexivity|]. split; [assumption|]. split; [|split].
      * intros g [<-|Hg]; [|now apply Hmoved].
        rewrite Eren. apply Hother; [assumption|].
        now rewrite <- Eren at 1.
      * intros k Hk Hrk. apply Hother.
        -- intros H. apply Hk. now right.
        -- intros H. apply Hrk. now right.
      * intros g [<-|Hg] Hne; [contradiction | now apply Hgone].
    + apply pystr_eqb_neq in Eren.
      destruct (proj1 (dict_mem_get f (prototypes s))
                  (Hkeys f (or_introl eq_refl))) as [v Hv].
      rewrite Hv.
      match goal with
      | |- context [rename_functions env l ?a ?st] =>
          destruct (IH a st Hnodup') as (s1 & Hrun & Hfiles & Hmoved & Hother & Hgone)
      end; try assumption.
      { intros g Hg. cbn [prototypes].
        apply dict_mem_del_keeps; [|intros ->; contradiction].
        apply dict_mem_set_keeps. apply Hkeys. now right. }
      cbn [prototypes files] in *.
      exists s1. rewrite Hrun, <- app_assoc. cbn [app map].
      split; [reflexivity|]. split; [assumption|]. split; [|split].
      * intros g [<-|Hg].
        -- rewrite Hother by assumption.
           rewrite dict_get_del_other by congruence.
           now rewrite dict_get_set_same.
        -- rewrite Hmoved by assumption.
           rewrite dict_get_del_other by (intros ->; contradiction).
           apply dict_get_set_other. intros ->. contradiction.
      * intros k Hk Hrk.
        rewrite Hother.
        -- rewrite dict_get_del_other by (intros ->; apply Hk; now left).
           apply dict_get_set_other. intros ->. apply Hrk. now left.
        -- intros H. apply Hk. now right.
        -- intros H. apply Hrk. now right.
      * intros g [<-|Hg] Hne.
        -- rewrite Hother by assumption. apply dict_get_del_same.
        -- now apply Hgone.
Qed.

(** The prefix change moves the entries and nothing else.  For requested
    names that are distinct keys of the catalog, whose new names are
    distinct and none of which takes the name of another requested
    function: the function list becomes the list of new names, every new
    name has the prototype the old name had, a renamed function is no
    longer found under its old name, every other entry of the catalog is as
    before, and no file is touched. *)
Theorem prefix_change_relocates
    (function_names : list pystr) (s : State) :
  NoDup function_names ->
  (forall f, In f function_names -> dict_mem f (prototypes s) = true) ->
  NoDup (map renamed function_names) ->
  (forall f g, In f function_names -> In g function_names ->
               renamed f = g -> f = g) ->
  exists s1,
    change_prefix env function_names s
    = (Ok (map renamed function_names), s1)
    /\ files s1 = files s
    /\ (forall f, In f function_names ->
          dict_get (renamed f) (prototypes s1) = dict_get f (prototypes s))
    /\ (forall k, ~ In k function_names ->
                  ~ In k (map renamed function_names) ->
          dict_get k (prototypes s1) = dict_get k (prototypes s))
    /\ (forall f, In f function_names -> renamed f <> f ->
          dict_get f (prototypes s1) = None).
Proof.
  intros Hnodup Hkeys Hfresh Hapart. unfold change_prefix.
  destruct (pystr_eqb (function_prefix env) Nt) eqn:E.
  - apply pystr_eqb_eq in E. exists s. rewrite E, map_replace1_same.
    split; [reflexivity|]. split; [reflexivity|].
    split; [|split]; intros; rewrite ?replace1_same in *; congruence.
  - exact (rename_functions_relocates function_names [] s
             Hnodup Hkeys Hfresh Hapart).
Qed.

(** *** What a session leaves behind, whatever its outcome *)

Lemma extends_refl (s : State) : extends s s.
Proof. split; [reflexivity|]. exists []. now rewrite app_nil_r. Qed.

Lemma extends_trans (s1 s2 s3 : State) :
  extends s1 s2 -> extends s2 s3 -> extends s1 s3.
Proof.
  intros [Hp (ops & Hf)] [Hp' (ops' & Hf')]. split; [congruence|].
  exists (ops ++ ops'). now rewrite Hf', Hf, app_assoc.
Qed.

Lemma ret_only_appends {A} (a : A) : only_appends (ret a).
Proof. intros s r s' H. injection H as _ <-. apply extends_refl. Qed.

Lemma lift_only_appends {A} (o : outcome A) : only_appends (lift o).
Proof. intros s r s' H. injection H as _ <-. apply extends_refl. Qed.

Lemma get_prototypes_only_appends : only_appends get_prototypes.
Proof. intros s r s' H. injection H as _ <-. apply extends_refl. Qed.

Lemma file_op_only_appends (op : FileOp) : only_appends (file_op op).
Proof.
  intros s r s' H. injection H as _ <-. split; [reflexivity|]. now exists [op].
Qed.

Lemma bind_only_appends {A B} (m : M A) (k : A -> M B) :
  only_appends m -> (forall a, only_appends (k a)) -> only_appends (bind m k).
Proof.
  intros Hm Hk s r s' H. unfold bind in H.
  destruct (m s) as [[a|e|] s1] eqn:Em.
  - apply extends_trans with s1; [exact (Hm _ _ _ Em) | exact (Hk a _ _ _ H)].
  - injection H as _ <-. exact (Hm _ _ _ Em).
  - injection H as _ <-. exact (Hm _ _ _ Em).
Qed.

Lemma for_each_only_appends {A} (l : list A) (body : A -> M unit) :
  (forall x, only_appends (body x)) -> only_appends (for_each l body).
Proof.
  intros Hbody. induction l as [|x l IH]; cbn [for_each].
  - apply ret_only_appends.
  - apply bind_only_appends; [apply Hbody | intros _; exact IH].
Qed.

#[local] Hint Resolve ret_only_appends lift_only_appends
  get_prototypes_only_appends file_op_only_appends : appends.

Lemma write_c_only_appends (basename : pystr) :
  only_appends (write_c env basename).
Proof.
  unfold write_c. apply bind_only_appends; auto with appends.
Qed.

Lemma write_asm_only_appends (basename : pystr) (names : list pystr) :
  only_appends (write_asm env basename names).
Proof.
  unfold write_asm.
  apply bind_only_appends; [auto with appends | intros _].
  apply bind_only_appends.
  { destruct (pystr_eqb (architecture env) x64); [auto with appends|].
    destruct (pystr_eqb (architecture env) x86_64); auto with appends. }
  intros _. apply bind_only_appends; [|auto with appends].
  apply for_each_only_appends. intros x. unfold write_stub.
  apply bind_only_appends; auto with appends.
Qed.

Lemma write_header_only_appends
    (fuel : nat) (basename : pystr) (names : list pystr) :
  only_appends (write_header env fuel basename names).
Proof.
  unfold write_header.
  do 4 (apply bind_only_appends; [solve [auto with appends] | intros ?]).
  apply bind_only_appends.
  { apply for_each_only_appends. intros x. unfold write_typedef.
    apply bind_only_appends; auto with appends. }
  intros _. apply bind_only_appends; [|auto with appends].
  apply for_each_only_appends. intros x. unfold write_prototype.
  do 3 (apply bind_only_appends; [solve [auto with appends] | intros ?]).
  auto with appends.
Qed.

Lemma rename_functions_NoDup (l : list pystr) :
  forall acc s r s1,
    rename_functions env l acc s = (r, s1) ->
    NoDup (dict_keys (prototypes s)) -> NoDup (dict_keys (prototypes s1)).
Proof.
  induction l as [|f l IH]; intros acc s r s1 H Hnodup.
  - injection H as _ <-. assumption.
  - rewrite rename_functions_step in H.
    destruct (pystr_eqb (renamed f) f); [now apply IH in H|].
    destruct (dict_get f (prototypes s)) as [v|].
    + apply IH in H; [assumption|]. cbn [prototypes].
      now apply dict_del_NoDup, dict_set_NoDup.
    + injection H as _ <-. assumption.
Qed.

Lemma prepare_footprint (function_names : list pystr) (s s1 : State)
    (r : outcome (list pystr)) :
  prepare env function_names s = (r, s1) ->
  files s1 = files s
  /\ (function_prefix env = Nt -> prototypes s1 = prototypes s)
  /\ (NoDup (dict_keys (prototypes s)) -> NoDup (dict_keys (prototypes s1))).
Proof.
  intros H. split; [exact (prepare_files env _ _ _ _ H)|].
  unfold prepare, bind in H.
  destruct (select_functions function_names s) as [[sel| |] s0] eqn:Esel;
    apply select_functions_state in Esel as ->.
  - unfold change_prefix in H.
    destruct (pystr_eqb (function_prefix env) Nt) eqn:E.
    + injection H as _ <-. tauto.
    + split.
      * intros E'. rewrite E', pystr_eqb_refl in E. discriminate.
      * exact (rename_functions_NoDup _ _ _ _ _ H).
  - injection H as _ <-. tauto.
  - injection H as _ <-. tauto.
Qed.

(** Only the prefix change touches the catalog.  Whatever the outcome of
    [generate] (success, any exception, or a loop that does not end), the
    catalog it leaves is the one selection and prefix change left, so a
    session that fails while writing does not take the renaming back; with
    the default prefix [Nt] the catalog is exactly as it was. *)
Theorem generate_leaves_catalog_of_prefix_change
    (fuel : nat) (function_names : list pystr) (basename : pystr)
    (s : State) :
  prototypes (snd (generate env fuel function_names basename s))
  = prototypes (snd (prepare env function_names s))
  /\ (function_prefix env = Nt ->
      prototypes (snd (generate env fuel function_names basename s))
      = prototypes s).
Proof.
  assert (Hsame :
    prototypes (snd (generate env fuel function_names basename s))
    = prototypes (snd (prepare env function_names s))).
  { rewrite generate_prepare.
    destruct (prepare env function_names s) as [[names| |] s1] eqn:Hprep;
      [|reflexivity ..].
    cbn [snd].
    destruct ((write_c env basename ;;
               write_asm env basename names ;;
               write_header env fuel basename names) s1) as [r s'] eqn:H.
    assert (Hext : extends s1 s').
    { revert H. apply bind_only_appends; [apply write_c_only_appends|].
      intros _. apply bind_only_appends; [apply write_asm_only_appends|].
      intros _. apply write_header_only_appends. }
    exact (proj1 Hext). }
  split; [exact Hsame|].
  intros E. rewrite Hsame.
  destruct (prepare env function_names s) as [r s1] eqn:Hprep.
  exact (proj1 (proj2 (prepare_footprint _ _ _ _ Hprep)) E).
Qed.

End WithSession.

End SessionMore.

(** ** The command line *)

Module CliFacts.

Import Session SessionFacts Cli.

(** *** Splitting at commas *)

Lemma split_from_nonempty (s current : pystr) : split_from s current <> [].
Proof.
  revert current. induction s as [|c s IH]; intros current; cbn.
  - discriminate.
  - destruct (N.eqb c COMMA); [discriminate | apply IH].
Qed.

Lemma join_split_from (s : pystr) :
  forall current, join_comma (split_from s current) = current ++ s.
Proof.
  induction s as [|c s IH]; intros current; cbn [split_from].
  - cbn. now rewrite app_nil_r.
  - destruct (N.eqb c COMMA) eqn:E.
    + apply N.eqb_eq in E as ->. cbn [join_comma].
      destruct (split_from s []) as [|x l] eqn:Es.
      * now apply split_from_nonempty in Es.
      * rewrite <- Es, IH. reflexivity.
    + rewrite IH, <- app_assoc. reflexivity.
Qed.

Section WithSession.

Context {platform : Platform}.
Context {set_of_str : SetIter pystr} {set_of_id : SetIter nat}.

Variable env : Env.

(** *** No selection, or a wrong one *)

(** Given a preset that is neither [all] nor [common], or neither a preset
    nor a function list, the block prints its banner and an error message
    and ends normally: [generate] is not called, no file is written and
    the catalog is untouched. *)
Theorem main_without_selection (fuel : nat) (args : Args) (s : State) :
  (truthy (preset args) = true
   /\ preset args <> Some (py "all") /\ preset args <> Some (py "common"))
  \/ (truthy (preset args) = false /\ truthy (functions args) = false) ->
  exists messages,
    main env fuel args s = (banner :: messages, Ok tt, s)
    /\ messages <> [].
Proof.
  unfold main. intros [(Htruthy & Hall & Hcommon)|(Hpreset & Hfunctions)].
  - destruct (preset args) as [p|]; [|discriminate]. cbn [is_literal].
    destruct (pystr_eqb p (py "all")) eqn:E1.
    { apply pystr_eqb_eq in E1. congruence. }
    destruct (pystr_eqb p (py "common")) eqn:E2.
    { apply pystr_eqb_eq in E2. congruence. }
    rewrite Htruthy. exists [invalid_preset_message]. split; [reflexivity|].
    discriminate.
  - assert (Hlit : forall l, l <> [] -> is_literal (preset args) l = false).
    { intros l Hl. destruct (preset args) as [[|c p]|]; try discriminate;
        cbn; [|reflexivity].
      apply pystr_eqb_neq. congruence. }
    rewrite !Hlit, Hpreset, Hfunctions by discriminate.
    exists usage_messages. split; [reflexivity | discriminate].
Qed.

(** *** A preset and a function list together *)

(** The two options are not checked for exclusion: with the preset [all]
    or [common], whatever [--functions] holds is ignored. *)
Theorem preset_overrides_functions
    (fuel : nat) (args : Args) (s : State) (other : option pystr) :
  preset args = Some (py "all") \/ preset args = Some (py "common") ->
  main env fuel args s
  = main env fuel
      {| preset := preset args; functions := other; out_file := out_file args |}
      s.
Proof.
  unfold main. cbn [preset functions out_file].
  intros [-> | ->]; reflexivity.
Qed.

(** *** A function list *)

(** Without a preset, a non-empty [--functions] value is cut at its commas
    and [generate] is called with the pieces: at least one, giving the
    value back when joined with commas.  So this path never selects the
    whole catalog, and if one piece (an empty one, say) is not a key of the
    catalog the run ends in [ValueError] with nothing written and only the
    banner printed. *)
Theorem functions_option_selects_pieces
    (fuel : nat) (args : Args) (s : State) (f : pystr) :
  truthy (preset args) = false ->
  functions args = Some f ->
  f <> [] ->
  main env fuel args s
  = call_generate env fuel [banner] (split_comma f) (out_file args) s
  /\ split_comma f <> []
  /\ join_comma (split_comma f) = f
  /\ ((exists x, In x (split_comma f) /\ dict_mem x (prototypes s) = false) ->
      main env fuel args s
      = ([banner], Raise ValueError_prototypes_unavailable, s)).
Proof.
  intros Hpreset Hf Hne.
  assert (Hmain : main env fuel args s
                  = call_generate env fuel [banner] (split_comma f)
                      (out_file args) s).
  { unfold main.
    assert (Hlit : forall l, l <> [] -> is_literal (preset args) l = false).
    { intros l Hl. destruct (preset args) as [[|c p]|]; try discriminate;
        cbn; [|reflexivity].
      apply pystr_eqb_neq. congruence. }
    rewrite !Hlit, Hpreset, Hf by discriminate.
    destruct f as [|c f']; [contradiction | reflexivity]. }
  split; [exact Hmain|]. split; [apply split_from_nonempty|].
  split; [apply (join_split_from f [])|].
  intros Hunknown. rewrite Hmain. unfold call_generate.
  rewrite generate_prepare. unfold prepare, bind.
  now rewrite select_functions_unknown.
Qed.

End WithSession.

End CliFacts.

(** *** The command line on the small catalog *)

Lemma main_without_selection_witness :
  exists messages,
    Cli.main (Examples.session "x64" "Nt") 2
      {| Cli.preset := Some (py "everything");
         Cli.functions := Some (py "NtClose");
         Cli.out_file := py "syscalls" |}
      Examples.fresh
    = (Cli.banner :: messages, Ok tt, Examples.fresh)
    /\ messages <> [].
Proof.
  apply (CliFacts.main_without_selection (Examples.session "x64" "Nt") 2
           {| Cli.preset := Some (py "everything");
              Cli.functions := Some (py "NtClose");
              Cli.out_file := py "syscalls" |} Examples.fresh).
  left. repeat split; intros H; discriminate H.
Defined.

Lemma preset_overrides_functions_witness :
  Cli.main (Examples.session "x64" "Nt") 2
    {| Cli.preset := Some (py "common");
       Cli.functions := Some (py "NtClose");
       Cli.out_file := py "syscalls" |}
    Examples.fresh
  = Cli.main (Examples.session "x64" "Nt") 2
      {| Cli.preset := Some (py "common");
         Cli.functions := None;
         Cli.out_file := py "syscalls" |}
      Examples.fresh.
Proof.
  apply (CliFacts.preset_overrides_functions (Examples.session "x64" "Nt") 2
           {| Cli.preset := Some (py "common");
              Cli.functions := Some (py "NtClose");
              Cli.out_file := py "syscalls" |} Examples.fresh None).
  now right.
Defined.

Lemma functions_option_selects_pieces_witness :
  Cli.main (Examples.session "x64" "Nt") 2
    {| Cli.preset := None;
       Cli.functions := Some (py "NtClose,");
       Cli.out_file := py "syscalls" |}
    Examples.fresh
  = ([Cli.banner], Raise ValueError_prototypes_unavailable, Examples.fresh).
Proof.
  apply (CliFacts.functions_option_selects_pieces (Examples.session "x64" "Nt") 2
           {| Cli.preset := None;
              Cli.functions := Some (py "NtClose,");
              Cli.out_file := py "syscalls" |} Examples.fresh (py "NtClose,")).
  - reflexivity.
  - reflexivity.
  - discriminate.
  - exists []. split; [right; left|]; reflexivity.
Defined.

(** *** More sessions on the small catalog *)


Lemma repeated_name_raises_KeyError_witness :
  exists s',
    Session.generate (Examples.session "x64" "Zw") 2
      [py "NtClose"; py "NtClose"] (py "syscalls") Examples.fresh
    = (Raise (KeyError (py "NtClose")), s')
    /\ files s' = files Examples.fresh.
Proof.
  apply (SessionMore.repeated_name_raises_KeyError
           (Examples.session "x64" "Zw") 2 (py "NtClose") []
           (py "syscalls") Examples.fresh).
  - intros H. vm_compute in H. discriminate H.
  - intros H. vm_compute in H. discriminate H.
  - reflexivity.
  - intros g [].
Defined.

Lemma prefix_change_relocates_witness :
  exists s1,
    Session.change_prefix (Examples.session "x64" "Zw")
      [py "NtClose"; py "NtFoo"] Examples.fresh
    = (Ok (map (replace1 Session.Nt (py "Zw")) [py "NtClose"; py "NtFoo"]), s1)
    /\ files s1 = files Examples.fresh
    /\ (forall f, In f [py "NtClose"; py "NtFoo"] ->
          dict_get (replace1 Session.Nt (py "Zw") f) (prototypes s1)
          = dict_get f (prototypes Examples.fresh))
    /\ (forall k, ~ In k [py "NtClose"; py "NtFoo"] ->
          ~ In k (map (replace1 Session.Nt (py "Zw"))
                    [py "NtClose"; py "NtFoo"]) ->
          dict_get k (prototypes s1) = dict_get k (prototypes Examples.fresh))
    /\ (forall f, In f [py "NtClose"; py "NtFoo"] ->
          replace1 Session.Nt (py "Zw") f <> f ->
          dict_get f (prototypes s1) = None).
Proof.
  apply (SessionMore.prefix_change_relocates (Examples.session "x64" "Zw")
           [py "NtClose"; py "NtFoo"] Examples.fresh).
  - repeat constructor; cbn; intuition discriminate.
  - intros f [<-|[<-|[]]]; reflexivity.
  - vm_compute. repeat constructor; cbn; intuition discriminate.
  - intros f g [<-|[<-|[]]] [<-|[<-|[]]] H; vm_compute in H;
      try discriminate H; reflexivity.
Defined.

(** ** The empty request *)

Module EmptyRequest.

Import Render Session SessionFacts.

Section WithSession.

Context {platform : Platform}.
Context {set_of_str : SetIter pystr} {set_of_id : SetIter nat}.

Variable env : Env.

Local Abbreviation renamed := (replace1 Nt (function_prefix env)).








End WithSession.

End EmptyRequest.





Lemma generate_leaves_catalog_of_prefix_change_witness :
  prototypes (snd (Examples.run "arm" "Zw" [py "NtClose"]))
  = prototypes (snd (Session.prepare (Examples.session "arm" "Zw")
                       [py "NtClose"] Examples.fresh)).
Proof.
  exact (proj1 (SessionMore.generate_leaves_catalog_of_prefix_change
                  (Examples.session "arm" "Zw") 2 [py "NtClose"]
                  (py "syscalls") Examples.fresh)).
Defined.


